(** * Lending Club order entry: a shallow embedding of [order_entry.py]

    The development follows the Python module top to bottom: the
    [ExecutionStatus] enumeration, the [Order] constructor, the three
    methods of [OESession] that touch the [orders] table, and the
    module-level [get_execution_code].

    Modelling choices.
    - The amount given to the [Order] constructor is a Python float
      ([pyfloat]): a finite number with its exact value, an infinity, or
      not-a-number, with the comparisons of floats.  The amounts the
      session handles and the ledger stores (SQL numerics) are finite and
      are exact rationals [Q]; [requested_amount = ...] is [Qeq_bool].
    - A Python exception is the [Raise] branch of [result]; a method of
      [OESession] is a computation in a state-and-exception monad over
      the [World] that the session's connection and client act on.
    - The [orders] table is a list of rows in insertion order.  The key
      [cl_order_id] generated by the INSERT is never fetched by the code
      and is not represented.  Statements sent to the database succeed;
      connection failures are not modelled.
    - The risk manager, the marketplace client and the database clock are
      collaborators of the module and are variables of the sections. *)

From Stdlib Require Import ZArith QArith String List Bool Lia Permutation.
Import ListNotations.

Local Open Scope string_scope.
Local Open Scope list_scope.
Local Open Scope Z_scope.

(** ** Exceptions and results *)

Inductive exn : Type :=
| ValueError (msg : string)
| TypeError (msg : string)
| DecodeError (name : string)
| ClientError (msg : string).

Inductive result (A : Type) : Type :=
| Ok (a : A)
| Raise (e : exn).

Arguments Ok {A} a.
Arguments Raise {A} e.

Definition result_bind {A B : Type} (r : result A) (k : A -> result B) : result B :=
  match r with
  | Ok a => k a
  | Raise e => Raise e
  end.

(** A list comprehension whose body may raise: elements are evaluated
    left to right and the first exception ends the comprehension. *)
Fixpoint comprehension {A B : Type} (f : A -> result B) (l : list A) : result (list B) :=
  match l with
  | [] => Ok []
  | x :: xs =>
      result_bind (f x) (fun y =>
      result_bind (comprehension f xs) (fun ys => Ok (y :: ys)))
  end.

(** Python 2's built-in [reduce(function, sequence)] called without an
    initial value. *)
Definition reduce {A : Type} (f : A -> A -> A) (l : list A) : result A :=
  match l with
  | [] => Raise (TypeError "reduce() of empty sequence with no initial value")
  | x :: xs => Ok (fold_left f xs x)
  end.

(** [operator.ior] on Python integers. *)
Definition ior : Z -> Z -> Z := Z.lor.

(** ** ExecutionStatus *)

Inductive ExecutionStatus : Type :=
| ORDER_FULFILLED
| LOAN_AMNT_EXCEEDED
| NOT_AN_INFUNDING_LOAN
| REQUESTED_AMNT_LOW
| REQUESTED_AMNT_ROUNDED
| AUGMENTED_BY_MERGE
| ELIM_BY_MERGE
| INSUFFICIENT_CASH
| NOT_AN_INVESTOR
| NOT_A_VALID_INVESTMENT
| NOTE_ADDED_TO_PORTFOLIO
| NOT_A_VALID_PORTFOLIO
| ERROR_ADDING_NOTE_TO_PORTFOLIO
| SYSTEM_BUSY
| UNKNOWN_ERROR.

Definition value (s : ExecutionStatus) : Z :=
  match s with
  | ORDER_FULFILLED => 1
  | LOAN_AMNT_EXCEEDED => 2
  | NOT_AN_INFUNDING_LOAN => 4
  | REQUESTED_AMNT_LOW => 8
  | REQUESTED_AMNT_ROUNDED => 16
  | AUGMENTED_BY_MERGE => 32
  | ELIM_BY_MERGE => 64
  | INSUFFICIENT_CASH => 128
  | NOT_AN_INVESTOR => 256
  | NOT_A_VALID_INVESTMENT => 512
  | NOTE_ADDED_TO_PORTFOLIO => 1024
  | NOT_A_VALID_PORTFOLIO => 2048
  | ERROR_ADDING_NOTE_TO_PORTFOLIO => 4096
  | SYSTEM_BUSY => 8192
  | UNKNOWN_ERROR => 16384
  end.

Definition name (s : ExecutionStatus) : string :=
  match s with
  | ORDER_FULFILLED => "ORDER_FULFILLED"
  | LOAN_AMNT_EXCEEDED => "LOAN_AMNT_EXCEEDED"
  | NOT_AN_INFUNDING_LOAN => "NOT_AN_INFUNDING_LOAN"
  | REQUESTED_AMNT_LOW => "REQUESTED_AMNT_LOW"
  | REQUESTED_AMNT_ROUNDED => "REQUESTED_AMNT_ROUNDED"
  | AUGMENTED_BY_MERGE => "AUGMENTED_BY_MERGE"
  | ELIM_BY_MERGE => "ELIM_BY_MERGE"
  | INSUFFICIENT_CASH => "INSUFFICIENT_CASH"
  | NOT_AN_INVESTOR => "NOT_AN_INVESTOR"
  | NOT_A_VALID_INVESTMENT => "NOT_A_VALID_INVESTMENT"
  | NOTE_ADDED_TO_PORTFOLIO => "NOTE_ADDED_TO_PORTFOLIO"
  | NOT_A_VALID_PORTFOLIO => "NOT_A_VALID_PORTFOLIO"
  | ERROR_ADDING_NOTE_TO_PORTFOLIO => "ERROR_ADDING_NOTE_TO_PORTFOLIO"
  | SYSTEM_BUSY => "SYSTEM_BUSY"
  | UNKNOWN_ERROR => "UNKNOWN_ERROR"
  end.

(** The members of the enumeration, in definition order. *)
Definition members : list ExecutionStatus :=
  [ORDER_FULFILLED; LOAN_AMNT_EXCEEDED; NOT_AN_INFUNDING_LOAN;
   REQUESTED_AMNT_LOW; REQUESTED_AMNT_ROUNDED; AUGMENTED_BY_MERGE;
   ELIM_BY_MERGE; INSUFFICIENT_CASH; NOT_AN_INVESTOR;
   NOT_A_VALID_INVESTMENT; NOTE_ADDED_TO_PORTFOLIO; NOT_A_VALID_PORTFOLIO;
   ERROR_ADDING_NOTE_TO_PORTFOLIO; SYSTEM_BUSY; UNKNOWN_ERROR].

(** Modelled from the spec: [StringEnum.from_str] of [lendingclub.types],
    the base class of [ExecutionStatus], is not among the sources.  The
    specification says of it: for each name, resolve to its flag value,
    with a decode failure (an unrecognized execution status error) if no
    match exists. *)
Definition from_str (m : string) : result ExecutionStatus :=
  match find (fun s => String.eqb (name s) m) members with
  | Some s => Ok s
  | None => Raise (DecodeError m)
  end.

Definition get_execution_code (execution_list : list string) : result Z :=
  result_bind
    (comprehension (fun m => result_bind (from_str m) (fun s => Ok (value s)))
                   execution_list)
    (fun encoded_execution_list => reduce ior encoded_execution_list).

(** The value a recognized name contributes; [0] for any other string. *)
Definition encoded (m : string) : Z :=
  match from_str m with
  | Ok s => value s
  | Raise _ => 0
  end.

Definition recognized (m : string) : Prop := exists s, name s = m.

(** Testing a flag the way a bitmask is read: [code & flag] is non-zero. *)
Definition flag_set (code : Z) (s : ExecutionStatus) : bool :=
  negb (Z.land code (value s) =? 0).

(** ** Order *)

(** A Python float as the constructor may be given one: a finite number
    (with its exact value), an infinity, or not-a-number. *)
Inductive pyfloat : Type :=
| Finite (q : Q)
| Infinity (negative : bool)
| NaN.

(** [x <= y] and [x < y] on floats; every comparison with not-a-number
    is false. *)
Definition float_le (x y : pyfloat) : bool :=
  match x, y with
  | NaN, _ | _, NaN => false
  | Finite a, Finite b => Qle_bool a b
  | Finite _, Infinity negative => negb negative
  | Infinity true, _ => true
  | Infinity false, Infinity false => true
  | Infinity false, _ => false
  end.

Definition float_lt (x y : pyfloat) : bool :=
  match x, y with
  | NaN, _ | _, NaN => false
  | Finite a, Finite b => negb (Qle_bool b a)
  | Finite _, Infinity negative => negb negative
  | Infinity true, Infinity true => false
  | Infinity true, _ => true
  | Infinity false, _ => false
  end.

(** The object [Order.__init__] initialises: its three attributes hold
    the arguments as given. *)
Record OrderObject : Type := mkOrderObject {
  self_loan_id : Z;
  self_amount : pyfloat;
  self_portfolio_id : option Z
}.

(** [Order.__init__]; [portfolio_id] defaults to [None].  The literal
    [0] of the test is the float zero. *)
Definition Order_init (loan_id : Z) (amount : pyfloat) (portfolio_id : option Z) : result OrderObject :=
  if float_le amount (Finite 0)
  then Raise (ValueError "Amount must be greater than 0")
  else Ok (mkOrderObject loan_id amount portfolio_id).

(** An order as the session handles it: an [Order] object whose amount is
    finite. *)
Record Order : Type := mkOrder {
  loan_id : Z;
  amount : Q;
  portfolio_id : option Z
}.

Definition order_of_object (o : OrderObject) : option Order :=
  match self_amount o with
  | Finite q => Some (mkOrder (self_loan_id o) q (self_portfolio_id o))
  | Infinity _ | NaN => None
  end.

(** ** Marketplace protocol objects

    [LCOrder] and the acknowledgment come from the [lendingclub] package;
    only the attributes the module reads or writes are kept. *)

Record LCOrder : Type := mkLCOrder {
  loanId : Z;
  requestedAmount : Q;
  portfolioId : option Z
}.

Record OrderConfirmation : Type := mkOrderConfirmation {
  oc_loanId : Z;
  oc_requestedAmount : Q;
  oc_investedAmount : Q;
  oc_executionStatus : list string
}.

Record SubmitOrderAck : Type := mkSubmitOrderAck {
  orderInstructId : string;
  orderConfirmations : list OrderConfirmation
}.

(** ** The orders table and the world of a session *)

Record Row : Type := mkRow {
  row_loan_id : Z;
  row_client_id : Z;
  row_requested_amount : Q;
  row_invested_amount : option Q;
  row_ex_order_id : option string;
  row_time_acknowledged : option Z;
  row_execution_code : option Z
}.

(** The dictionary built per confirmation by [final_log_order]; its keys
    are fixed, so it is a record. *)
Record order_dict : Type := mkOrderDict {
  od_loan_id : Z;
  od_requested_amount : Q;
  od_invested_amount : Q;
  od_execution_code : Z;
  od_instruct_id : string
}.

(** What the session does to the outside, in program order.  An update
    carries the number of rows it affected. *)
Inductive Event : Type :=
| EvInsert (r : Row)
| EvUpdate (p : order_dict) (rowcount : nat)
| EvCommit
| EvSubmit (investor_id : Z) (order_pack : list LCOrder).

Record World : Type := mkWorld {
  table : list Row;      (* the orders table as the open transaction sees it *)
  durable : list Row;    (* the orders table as of the last commit *)
  trace : list Event     (* oldest event first *)
}.

(** ** The monad of session methods *)

Definition M (A : Type) : Type := World -> result A * World.

Definition ret {A : Type} (a : A) : M A := fun w => (Ok a, w).

Definition raise {A : Type} (e : exn) : M A := fun w => (Raise e, w).

Definition bind {A B : Type} (c : M A) (k : A -> M B) : M B :=
  fun w =>
    match c w with
    | (Ok a, w') => k a w'
    | (Raise e, w') => (Raise e, w')
    end.

Definition lift {A : Type} (r : result A) : M A := fun w => (r, w).

Notation "x <- c1 ;; c2" := (bind c1 (fun x => c2))
  (at level 61, c1 at next level, right associativity).
Notation "c1 ;; c2" := (bind c1 (fun _ => c2))
  (at level 61, right associativity).

(** A [for] loop whose body is a statement. *)
Fixpoint for_each {A : Type} (body : A -> M unit) (l : list A) : M unit :=
  match l with
  | [] => ret tt
  | x :: xs => body x ;; for_each body xs
  end.

Definition emit (e : Event) : M unit :=
  fun w => (Ok tt, mkWorld (table w) (durable w) (trace w ++ [e])).

(** ** Database statements *)

(** INSERT INTO orders (loan_id, client_id, requested_amount) VALUES ...:
    the other columns are NULL. *)
Definition intent_row (loan client : Z) (requested : Q) : Row :=
  mkRow loan client requested None None None None.

Definition execute_insert (loan client : Z) (requested : Q) : M unit :=
  fun w =>
    let r := intent_row loan client requested in
    (Ok tt, mkWorld (table w ++ [r]) (durable w) (trace w ++ [EvInsert r])).

(** WHERE loan_id = %(loan_id)s and requested_amount = %(requested_amount)s
    and execution_code IS NULL *)
Definition where_clause (p : order_dict) (r : Row) : bool :=
  (row_loan_id r =? od_loan_id p)
  && Qeq_bool (row_requested_amount r) (od_requested_amount p)
  && match row_execution_code r with None => true | Some _ => false end.

(** SET (invested_amount, ex_order_id, time_acknowledged, execution_code) =
    (%(invested_amount)s, %(instruct_id)s, current_timestamp,
     %(execution_code)s) *)
Definition set_clause (now : Z) (p : order_dict) (r : Row) : Row :=
  mkRow (row_loan_id r) (row_client_id r) (row_requested_amount r)
        (Some (od_invested_amount p)) (Some (od_instruct_id p))
        (Some now) (Some (od_execution_code p)).

Definition update_rows (now : Z) (p : order_dict) (rows : list Row) : list Row :=
  map (fun r => if where_clause p r then set_clause now p r else r) rows.

Definition rowcount (p : order_dict) (rows : list Row) : nat :=
  length (filter (where_clause p) rows).

Definition execute_update (now : Z) (p : order_dict) : M unit :=
  fun w =>
    (Ok tt, mkWorld (update_rows now p (table w)) (durable w)
                    (trace w ++ [EvUpdate p (rowcount p (table w))])).

(** [cur.executemany(sql, seq)] runs the statement once per element. *)
Definition executemany (now : Z) (order_list : list order_dict) : M unit :=
  for_each (execute_update now) order_list.

Definition commit : M unit :=
  fun w => (Ok tt, mkWorld (table w) (table w) (trace w ++ [EvCommit])).

(** ** OESession *)

Section OESession.

(** [RiskManager.instance().check] *)
Variable risk_check : Order -> bool.
(** [self.client.submit_order]; it answers with an acknowledgment or
    raises. *)
Variable client_submit_order : Z -> list LCOrder -> result SubmitOrderAck.
(** [current_timestamp] of the database. *)
Variable current_timestamp : Z.

(** A call of the marketplace client: the call is recorded whether it
    answers or raises. *)
Definition client_call (investor_id : Z) (order_pack : list LCOrder) : M SubmitOrderAck :=
  fun w =>
    (client_submit_order investor_id order_pack,
     mkWorld (table w) (durable w) (trace w ++ [EvSubmit investor_id order_pack])).

Definition preliminary_log_order (client_id : Z) (order_pack : list LCOrder) : M unit :=
  for_each (fun lc_order =>
              execute_insert (loanId lc_order) client_id (requestedAmount lc_order))
           order_pack ;;
  commit.

(** The first loop of [final_log_order], which builds [order_list] and
    touches nothing but local variables. *)
Definition build_order_list (lc_submit_order_ack : SubmitOrderAck) : result (list order_dict) :=
  comprehension
    (fun lc_order_confirmation =>
       let execution_list := oc_executionStatus lc_order_confirmation in
       result_bind (get_execution_code execution_list) (fun encoded_executions =>
       Ok (mkOrderDict (oc_loanId lc_order_confirmation)
                       (oc_requestedAmount lc_order_confirmation)
                       (oc_investedAmount lc_order_confirmation)
                       encoded_executions
                       (orderInstructId lc_submit_order_ack))))
    (orderConfirmations lc_submit_order_ack).

Definition final_log_order (lc_submit_order_ack : SubmitOrderAck) : M unit :=
  order_list <- lift (build_order_list lc_submit_order_ack) ;;
  executemany current_timestamp order_list ;;
  commit.

(** The [for] loop of [submit_orders]: [None] when the loop body hit
    [return], otherwise the completed [order_pack]. *)
Fixpoint gate (orders : list Order) (order_pack : list LCOrder) : option (list LCOrder) :=
  match orders with
  | [] => Some order_pack
  | order :: rest =>
      let lc_order := mkLCOrder (loan_id order) (amount order) (portfolio_id order) in
      let order_pack := order_pack ++ [lc_order] in
      if negb (risk_check order) then None else gate rest order_pack
  end.

(** The methods return [None] on every path; [tt] stands for it. *)
Definition submit_orders (investor_id client_id : Z) (orders : list Order) : M unit :=
  match gate orders [] with
  | None => ret tt
  | Some order_pack =>
      preliminary_log_order client_id order_pack ;;
      lc_submit_order_ack <- client_call investor_id order_pack ;;
      final_log_order lc_submit_order_ack
  end.

Definition submit_order (investor_id client_id : Z) (order : Order) : M unit :=
  let orders := [order] in
  submit_orders investor_id client_id orders.

End OESession.

(** ** Vocabulary of the statements *)

(** The protocol order [submit_orders] builds for an [Order]. *)
Definition lc_of_order (order : Order) : LCOrder :=
  mkLCOrder (loan_id order) (amount order) (portfolio_id order).

(** The row [preliminary_log_order] inserts for an [Order]. *)
Definition intent_of_order (client_id : Z) (order : Order) : Row :=
  intent_row (loan_id order) client_id (amount order).

(** A row whose outcome columns are all NULL. *)
Definition unresolved (r : Row) : Prop :=
  row_invested_amount r = None /\ row_ex_order_id r = None /\
  row_time_acknowledged r = None /\ row_execution_code r = None.

(** The reconciliation key of a confirmation agrees with a row. *)
Definition key_matches (c : OrderConfirmation) (r : Row) : Prop :=
  row_loan_id r = oc_loanId c /\
  (row_requested_amount r == oc_requestedAmount c)%Q.

(** Every confirmation of the acknowledgment carries decodable statuses. *)
Definition decodable (ack : SubmitOrderAck) : Prop :=
  forall c, In c (orderConfirmations ack) ->
    exists code, get_execution_code (oc_executionStatus c) = Ok code.

(** The table after a sequence of UPDATE statements, and the events the
    statements leave in the trace. *)
Definition apply_updates (now : Z) (ps : list order_dict) (rows : list Row) : list Row :=
  fold_left (fun t p => update_rows now p t) ps rows.

Fixpoint update_events (now : Z) (ps : list order_dict) (rows : list Row) : list Event :=
  match ps with
  | [] => []
  | p :: ps' => EvUpdate p (rowcount p rows) :: update_events now ps' (update_rows now p rows)
  end.

(** What a sequence of statements does to one row. *)
Definition update_row (now : Z) (ps : list order_dict) (r : Row) : Row :=
  fold_left (fun r p => if where_clause p r then set_clause now p r else r) ps r.

(** The status code and the statement parameters a confirmation gives
    rise to; the code of undecodable statuses is immaterial. *)
Definition decoded (c : OrderConfirmation) : Z :=
  match get_execution_code (oc_executionStatus c) with
  | Ok code => code
  | Raise _ => 0
  end.

Definition dict_of (ack : SubmitOrderAck) (c : OrderConfirmation) : order_dict :=
  mkOrderDict (oc_loanId c) (oc_requestedAmount c) (oc_investedAmount c)
              (decoded c) (orderInstructId ack).

(** No row of the table satisfies the WHERE clause of a statement. *)
Definition settled (p : order_dict) (rows : list Row) : Prop :=
  Forall (fun r => where_clause p r = false) rows.

(** The events that write a new row or reach the marketplace. *)
Definition is_insert_or_submit (ev : Event) : bool :=
  match ev with
  | EvInsert _ | EvSubmit _ _ => true
  | EvUpdate _ _ | EvCommit => false
  end.

(** ** A concrete session, used to instantiate the statements

    One order for loan 12345 of amount 25; the marketplace answers with
    instruct id X1 and one fulfilled confirmation; the risk manager
    approves amounts up to 100. *)

Definition empty_world : World := mkWorld [] [] [].

Definition order_25 : Order := mkOrder 12345 25 None.

Definition order_500 : Order := mkOrder 777 500 None.

Definition risk_upto_100 (order : Order) : bool := Qle_bool (amount order) 100.

Definition ack_X1 : SubmitOrderAck :=
  mkSubmitOrderAck "X1" [mkOrderConfirmation 12345 25 25 ["ORDER_FULFILLED"]].

Definition client_X1 (investor_id : Z) (order_pack : list LCOrder) : result SubmitOrderAck :=
  Ok ack_X1.

Definition ack_garbled : SubmitOrderAck :=
  mkSubmitOrderAck "X2" [mkOrderConfirmation 12345 25 25 ["ORDER_FULFILLED"];
                         mkOrderConfirmation 777 500 0 ["ORDER_LOST"]].


(** ** Vocabulary of the further properties *)

(** The columns written by the INSERT, which identify a row, and the
    columns written by the UPDATE. *)
Definition identity_columns (r : Row) : Z * Z * Q :=
  (row_loan_id r, row_client_id r, row_requested_amount r).

Definition outcome_columns (r : Row) : option Q * option string * option Z * option Z :=
  (row_invested_amount r, row_ex_order_id r, row_time_acknowledged r,
   row_execution_code r).

(** execution_code IS NULL, and the number of such rows of a table. *)
Definition code_is_null (r : Row) : bool :=
  match row_execution_code r with
  | None => true
  | Some _ => false
  end.

Definition count_unresolved (rows : list Row) : nat :=
  length (filter code_is_null rows).

(** The total of the affected-row counts of the UPDATE statements of a
    trace. *)
Fixpoint affected (evs : list Event) : nat :=
  match evs with
  | [] => 0%nat
  | EvUpdate _ n :: evs' => (n + affected evs')%nat
  | _ :: evs' => affected evs'
  end.

(** Two confirmations carry the same reconciliation key; no two
    confirmations at different positions of a list do. *)
Definition same_key (c1 c2 : OrderConfirmation) : Prop :=
  oc_loanId c1 = oc_loanId c2 /\
  (oc_requestedAmount c1 == oc_requestedAmount c2)%Q.

Definition distinct_keys (confs : list OrderConfirmation) : Prop :=
  forall i j c1 c2,
    nth_error confs i = Some c1 -> nth_error confs j = Some c2 ->
    same_key c1 c2 -> i = j.

(** Two more marketplace clients for the concrete session: one that is
    unreachable and one that answers with an unknown status name. *)
Definition client_down (investor_id : Z) (order_pack : list LCOrder) : result SubmitOrderAck :=
  Raise (ClientError "connection timed out").

Definition client_garbled (investor_id : Z) (order_pack : list LCOrder) : result SubmitOrderAck :=
  Ok ack_garbled.

(** ** The sanitizer's [_term_to_int] ([sanitize.py])

    [str.strip(chars)] removes from both ends of a string the characters
    that occur in [chars], which is a set of characters and not a suffix.
    The built-in [int] is a variable of the section. *)

Definition in_chars (chars : list Ascii.ascii) (a : Ascii.ascii) : bool :=
  existsb (Ascii.eqb a) chars.

Fixpoint lstrip_chars (chars s : list Ascii.ascii) : list Ascii.ascii :=
  match s with
  | [] => []
  | a :: s' => if in_chars chars a then lstrip_chars chars s' else s
  end.

Definition strip (chars s : string) : string :=
  let cs := list_ascii_of_string chars in
  string_of_list_ascii
    (rev (lstrip_chars cs (rev (lstrip_chars cs (list_ascii_of_string s))))).

Section Sanitizer.

Variable int : string -> result Z.

Definition _term_to_int (term_string : string) : result Z :=
  int (strip " months" term_string).

End Sanitizer.

(** A decimal digit, and a string made of characters of a set. *)
Definition is_digit (a : Ascii.ascii) : bool :=
  (48 <=? Ascii.nat_of_ascii a)%nat && (Ascii.nat_of_ascii a <=? 57)%nat.

Definition all_digits (s : string) : Prop :=
  Forall (fun a => is_digit a = true) (list_ascii_of_string s).

Definition made_of (chars s : string) : Prop :=
  Forall (fun a => in_chars (list_ascii_of_string chars) a = true)
         (list_ascii_of_string s).

(** * Properties *)

(** ** Results and comprehensions *)

Lemma comprehension_ok {A B : Type} (f : A -> result B) (g : A -> B) (l : list A) :
  Forall (fun x => f x = Ok (g x)) l ->
  comprehension f l = Ok (map g l).
Proof.
  induction 1 as [|x xs Hx _ IH]; simpl.
  - reflexivity.
  - rewrite Hx, IH. reflexivity.
Qed.

(** The comprehension raises as soon as one element does: the exception
    is the one of the first element that raises. *)
Lemma comprehension_raises {A B : Type} (f : A -> result B) (l : list A) :
  (exists x e, In x l /\ f x = Raise e) ->
  exists pre x post e,
    l = pre ++ x :: post /\
    Forall (fun y => exists b, f y = Ok b) pre /\
    f x = Raise e /\
    comprehension f l = Raise e.
Proof.
  induction l as [|a l IH]; intros (x & e & Hin & Hx).
  - destruct Hin.
  - destruct (f a) as [b|ea] eqn:Ha.
    + assert (Hl : exists x e, In x l /\ f x = Raise e).
      { destruct Hin as [->|Hin]; [congruence|]. eauto. }
      destruct (IH Hl) as (pre & x' & post & e' & -> & Hpre & Hx' & Hc).
      exists (a :: pre), x', post, e'. repeat split; auto.
      * constructor; eauto.
      * simpl. rewrite Ha, Hc. reflexivity.
    + exists [], a, l, ea. repeat split; auto.
      simpl. rewrite Ha. reflexivity.
Qed.

(** ** The execution-status codec *)

Lemma all_members (s : ExecutionStatus) : In s members.
Proof. destruct s; simpl; tauto. Qed.

Lemma from_str_name (s : ExecutionStatus) : from_str (name s) = Ok s.
Proof. destruct s; reflexivity. Qed.

Lemma from_str_Ok (m : string) (s : ExecutionStatus) :
  from_str m = Ok s -> name s = m.
Proof.
  unfold from_str.
  destruct (find _ members) as [s'|] eqn:F; [|discriminate].
  intros [= <-]. apply find_some in F. now apply String.eqb_eq.
Qed.

Lemma from_str_Raise (m : string) (e : exn) :
  from_str m = Raise e -> e = DecodeError m /\ forall s, name s <> m.
Proof.
  unfold from_str.
  destruct (find _ members) as [s'|] eqn:F; [discriminate|].
  intros [= <-]. split; [reflexivity|].
  intros s. apply String.eqb_neq.
  exact (find_none _ _ F s (all_members s)).
Qed.

(** Every flag value is a single bit. *)
Lemma value_pow2 (s : ExecutionStatus) : value s = 2 ^ Z.log2 (value s).
Proof. destruct s; reflexivity. Qed.

Lemma log2_value_nonneg (s : ExecutionStatus) : 0 <= Z.log2 (value s).
Proof. apply Z.log2_nonneg. Qed.

Lemma value_testbit (s : ExecutionStatus) (i : Z) :
  Z.testbit (value s) i = (Z.log2 (value s) =? i).
Proof.
  rewrite value_pow2 at 1.
  apply Z.pow2_bits_eqb, log2_value_nonneg.
Qed.

Lemma log2_value_inj (s t : ExecutionStatus) :
  Z.log2 (value s) = Z.log2 (value t) -> s = t.
Proof. destruct s, t; simpl; intros H; try reflexivity; discriminate H. Qed.

Lemma fold_ior_testbit (vs : list Z) (a i : Z) :
  Z.testbit (fold_left ior vs a) i = Z.testbit a i || existsb (fun v => Z.testbit v i) vs.
Proof.
  revert a. induction vs as [|v vs IH]; intros a; simpl.
  - now rewrite orb_false_r.
  - rewrite IH. unfold ior. rewrite Z.lor_spec, orb_assoc. reflexivity.
Qed.

Lemma recognized_encoded (m : string) :
  recognized m ->
  result_bind (from_str m) (fun s => Ok (value s)) = Ok (encoded m).
Proof.
  intros [s <-]. unfold encoded. rewrite from_str_name. reflexivity.
Qed.

(** On a non-empty list of recognized names the decoder returns the
    bitwise or of the values, described here bit by bit. *)
Lemma get_execution_code_bits (l : list string) :
  l <> [] -> Forall recognized l ->
  exists code,
    get_execution_code l = Ok code /\
    forall i, Z.testbit code i = existsb (fun m => Z.testbit (encoded m) i) l.
Proof.
  intros Hne Hrec. unfold get_execution_code.
  rewrite (comprehension_ok _ encoded).
  - destruct l as [|m ms]; [contradiction|]. simpl.
    eexists; split; [reflexivity|]. intros i.
    rewrite fold_ior_testbit. f_equal.
    clear. induction ms as [|x xs IH]; simpl; [reflexivity|]. now rewrite IH.
  - eapply Forall_impl; [|exact Hrec]. apply recognized_encoded.
Qed.

Lemma existsb_encoded_bit (l : list string) (i : Z) :
  Forall recognized l ->
  existsb (fun m => Z.testbit (encoded m) i) l = true <->
  exists s, In (name s) l /\ Z.log2 (value s) = i.
Proof.
  intros Hrec. rewrite existsb_exists. split.
  - intros (m & Hin & Hb).
    rewrite Forall_forall in Hrec. destruct (Hrec m Hin) as [s <-].
    unfold encoded in Hb. rewrite from_str_name, value_testbit in Hb.
    exists s. split; [assumption|]. now apply Z.eqb_eq.
  - intros (s & Hin & Hi). exists (name s). split; [assumption|].
    unfold encoded. rewrite from_str_name, value_testbit. now apply Z.eqb_eq.
Qed.

Lemma flag_set_testbit (code : Z) (s : ExecutionStatus) :
  flag_set code s = Z.testbit code (Z.log2 (value s)).
Proof.
  unfold flag_set. pose proof (log2_value_nonneg s) as Hk.
  rewrite (value_pow2 s) at 1.
  destruct (Z.testbit code (Z.log2 (value s))) eqn:Hb.
  - apply negb_true_iff, Z.eqb_neq. intros H0.
    assert (Hc : Z.testbit (Z.land code (2 ^ Z.log2 (value s))) (Z.log2 (value s)) = true).
    { rewrite Z.land_spec, Hb. simpl. apply Z.pow2_bits_true, Hk. }
    rewrite H0, Z.bits_0 in Hc. discriminate.
  - apply negb_false_iff, Z.eqb_eq. apply Z.bits_inj'. intros n Hn.
    rewrite Z.land_spec, Z.bits_0. rewrite Z.pow2_bits_eqb by exact Hk.
    destruct (Z.eqb_spec (Z.log2 (value s)) n) as [<-|_].
    + rewrite Hb. reflexivity.
    + apply andb_false_r.
Qed.

Lemma from_str_unrecognized (m : string) :
  (forall s, name s <> m) -> from_str m = Raise (DecodeError m).
Proof.
  intros Hm. destruct (from_str m) as [s|e] eqn:F.
  - apply from_str_Ok in F. now destruct (Hm s).
  - apply from_str_Raise in F as [-> _]. reflexivity.
Qed.

(** C3 (the code departs from the claim).  Decoding the empty list of
    status names does not return the zero bitmask: the comprehension
    yields the empty list and [reduce], called without an initial value,
    raises [TypeError]. *)
Theorem get_execution_code_empty_raises :
  get_execution_code [] =
  Raise (TypeError "reduce() of empty sequence with no initial value").
Proof. reflexivity. Qed.

(** C7.  On a non-empty list of recognized status names the decoder
    returns a bitmask that is the same for every permutation of the list,
    in which the flag of every name of the list is set, and in which no
    other bit is set; the names ORDER_FULFILLED and REQUESTED_AMNT_ROUNDED
    decode to 1 | 16 = 17. *)
Theorem get_execution_code_order_independent (l : list string) :
  l <> [] ->
  Forall recognized l ->
  (exists code,
      get_execution_code l = Ok code /\
      (forall l', Permutation l l' -> get_execution_code l' = Ok code) /\
      (forall s, flag_set code s = true <-> In (name s) l) /\
      (forall i, Z.testbit code i = true ->
                 exists s, In (name s) l /\ value s = 2 ^ i)) /\
  get_execution_code ["ORDER_FULFILLED"; "REQUESTED_AMNT_ROUNDED"] = Ok (Z.lor 1 16) /\
  Z.lor 1 16 = 17.
Proof.
  intros Hne Hrec. split; [|split; reflexivity].
  destruct (get_execution_code_bits l Hne Hrec) as (code & Hcode & Hbits).
  exists code. split; [assumption|]. split; [|split].
  - intros l' Hperm.
    assert (Hne' : l' <> []).
    { intros ->. apply Permutation_sym, Permutation_nil in Hperm. contradiction. }
    assert (Hrec' : Forall recognized l').
    { rewrite Forall_forall in *. intros m Hm. apply Hrec.
      eapply Permutation_in; [apply Permutation_sym|]; eassumption. }
    destruct (get_execution_code_bits l' Hne' Hrec') as (code' & Hcode' & Hbits').
    rewrite Hcode'. f_equal. apply Z.bits_inj. intros i.
    rewrite Hbits, Hbits'.
    apply eq_true_iff_eq. rewrite !existsb_encoded_bit by assumption.
    split; intros (s & Hin & Hi); exists s; split; try assumption.
    + eapply Permutation_in; [apply Permutation_sym|]; eassumption.
    + eapply Permutation_in; eassumption.
  - intros s. rewrite flag_set_testbit, Hbits, existsb_encoded_bit by assumption.
    split.
    + intros (t & Hin & Ht). apply log2_value_inj in Ht. now subst t.
    + intros Hin. now exists s.
  - intros i Hi. rewrite Hbits, existsb_encoded_bit in Hi by assumption.
    destruct Hi as (s & Hin & <-). exists s. split; [assumption|apply value_pow2].
Qed.

Lemma get_execution_code_order_independent_witness :
  (exists code,
      get_execution_code ["REQUESTED_AMNT_ROUNDED"; "ORDER_FULFILLED"] = Ok code /\
      (forall l', Permutation ["REQUESTED_AMNT_ROUNDED"; "ORDER_FULFILLED"] l' ->
                  get_execution_code l' = Ok code) /\
      (forall s, flag_set code s = true <->
                 In (name s) ["REQUESTED_AMNT_ROUNDED"; "ORDER_FULFILLED"]) /\
      (forall i, Z.testbit code i = true ->
                 exists s, In (name s) ["REQUESTED_AMNT_ROUNDED"; "ORDER_FULFILLED"] /\
                           value s = 2 ^ i)) /\
  get_execution_code ["ORDER_FULFILLED"; "REQUESTED_AMNT_ROUNDED"] = Ok (Z.lor 1 16) /\
  Z.lor 1 16 = 17.
Proof.
  apply (get_execution_code_order_independent
           ["REQUESTED_AMNT_ROUNDED"; "ORDER_FULFILLED"]).
  - discriminate.
  - repeat constructor.
    + exists REQUESTED_AMNT_ROUNDED. reflexivity.
    + exists ORDER_FULFILLED. reflexivity.
Defined.

(** C8.  A list of status names that contains, at any position, a string
    that is the name of no execution status is not decoded: the decoder
    raises the decode error of an unrecognized name of the list (the first
    one), and so returns no bitmask at all. *)
Theorem get_execution_code_unrecognized_fails (l : list string) (m : string) :
  In m l ->
  (forall s, name s <> m) ->
  exists m',
    In m' l /\ (forall s, name s <> m') /\
    get_execution_code l = Raise (DecodeError m') /\
    (forall code, get_execution_code l <> Ok code).
Proof.
  intros Hin Hm.
  destruct (comprehension_raises
              (fun m => result_bind (from_str m) (fun s => Ok (value s))) l)
    as (pre & x & post & e & Hl & _ & Hx & Hc).
  { exists m, (DecodeError m). split; [assumption|].
    rewrite (from_str_unrecognized m Hm). reflexivity. }
  destruct (from_str x) as [s|e'] eqn:F; simpl in Hx; [discriminate|].
  injection Hx as ->. apply from_str_Raise in F as [-> Hx].
  assert (Hraise : get_execution_code l = Raise (DecodeError x)).
  { unfold get_execution_code. rewrite Hc. reflexivity. }
  exists x. repeat split; try assumption.
  - subst l. apply in_or_app. right. left. reflexivity.
  - intros code. rewrite Hraise. discriminate.
Qed.

Lemma get_execution_code_unrecognized_fails_witness :
  exists m',
    In m' ["ORDER_FULFILLED"; "ORDER_CANCELLED"; "SYSTEM_BUSY"] /\
    (forall s, name s <> m') /\
    get_execution_code ["ORDER_FULFILLED"; "ORDER_CANCELLED"; "SYSTEM_BUSY"]
      = Raise (DecodeError m') /\
    (forall code,
        get_execution_code ["ORDER_FULFILLED"; "ORDER_CANCELLED"; "SYSTEM_BUSY"]
          <> Ok code).
Proof.
  apply (get_execution_code_unrecognized_fails
           ["ORDER_FULFILLED"; "ORDER_CANCELLED"; "SYSTEM_BUSY"] "ORDER_CANCELLED").
  - simpl. right. left. reflexivity.
  - intros s. destruct s; discriminate.
Defined.

(** ** Order construction *)

(** What the guard of the constructor does on every float: it raises
    when [amount <= 0] holds and builds the object otherwise, so an
    amount at most zero is refused and a strictly positive amount is
    accepted. *)
Lemma Order_init_guard (l : Z) (a : pyfloat) (p : option Z) :
  (float_le a (Finite 0) = true ->
   Order_init l a p = Raise (ValueError "Amount must be greater than 0")) /\
  (float_lt (Finite 0) a = true ->
   Order_init l a p = Ok (mkOrderObject l a p)) /\
  ((exists e, Order_init l a p = Raise e) <-> float_le a (Finite 0) = true).
Proof.
  unfold Order_init. destruct (float_le a (Finite 0)) eqn:Hle.
  - repeat split; try reflexivity.
    + intros Hlt. destruct a as [q|[]|]; simpl in *; try discriminate.
      rewrite Hle in Hlt. discriminate.
    + intros _. eexists. reflexivity.
  - repeat split; try discriminate.
    intros [e He]. discriminate.
Qed.

(** C9 (the code departs from the claim).  Not-a-number is not strictly
    positive, and it is not at most zero either: the test [amount <= 0]
    of the constructor is false for it, so the constructor does not raise
    and builds an order whose amount is not-a-number. *)
Theorem Order_init_accepts_nan (l : Z) (p : option Z) :
  float_lt (Finite 0) NaN = false /\
  float_le NaN (Finite 0) = false /\
  Order_init l NaN p = Ok (mkOrderObject l NaN p) /\
  (forall e, Order_init l NaN p <> Raise e).
Proof.
  repeat split. intros e. discriminate.
Qed.

(** ** Database statements *)

Lemma for_each_insert (client_id : Z) (order_pack : list LCOrder) (w : World) :
  for_each (fun lc_order =>
              execute_insert (loanId lc_order) client_id (requestedAmount lc_order))
           order_pack w
  = (Ok tt,
     let rows := map (fun lc => intent_row (loanId lc) client_id (requestedAmount lc))
                     order_pack in
     mkWorld (table w ++ rows) (durable w) (trace w ++ map EvInsert rows)).
Proof.
  revert w. induction order_pack as [|lc rest IH]; intros w; simpl.
  - unfold ret. rewrite !app_nil_r. now destruct w.
  - unfold bind at 1. unfold execute_insert at 1. rewrite IH. simpl.
    rewrite <- !app_assoc. reflexivity.
Qed.

Lemma preliminary_log_order_spec (client_id : Z) (order_pack : list LCOrder) (w : World) :
  preliminary_log_order client_id order_pack w
  = (Ok tt,
     let rows := map (fun lc => intent_row (loanId lc) client_id (requestedAmount lc))
                     order_pack in
     mkWorld (table w ++ rows) (table w ++ rows)
             (trace w ++ map EvInsert rows ++ [EvCommit])).
Proof.
  unfold preliminary_log_order, bind. rewrite for_each_insert. simpl.
  unfold commit. simpl. rewrite <- app_assoc. reflexivity.
Qed.

Lemma executemany_spec (now : Z) (ps : list order_dict) (w : World) :
  executemany now ps w
  = (Ok tt, mkWorld (apply_updates now ps (table w)) (durable w)
                    (trace w ++ update_events now ps (table w))).
Proof.
  unfold executemany, apply_updates.
  revert w. induction ps as [|p ps IH]; intros w; simpl.
  - unfold ret. rewrite app_nil_r. now destruct w.
  - unfold bind at 1. unfold execute_update at 1. rewrite IH. simpl.
    rewrite <- app_assoc. reflexivity.
Qed.

Lemma update_rows_length (now : Z) (p : order_dict) (rows : list Row) :
  length (update_rows now p rows) = length rows.
Proof. apply length_map. Qed.

Lemma apply_updates_length (now : Z) (ps : list order_dict) (rows : list Row) :
  length (apply_updates now ps rows) = length rows.
Proof.
  unfold apply_updates. revert rows.
  induction ps as [|p ps IH]; intros rows; simpl; [reflexivity|].
  rewrite IH. apply update_rows_length.
Qed.

Lemma apply_updates_map (now : Z) (ps : list order_dict) (rows : list Row) :
  apply_updates now ps rows = map (update_row now ps) rows.
Proof.
  unfold apply_updates, update_row. revert rows.
  induction ps as [|p ps IH]; intros rows; simpl.
  - now rewrite map_id.
  - rewrite IH. unfold update_rows. rewrite map_map. reflexivity.
Qed.

Lemma where_clause_resolved (p : order_dict) (r : Row) :
  row_execution_code r <> None -> where_clause p r = false.
Proof.
  unfold where_clause. destruct (row_execution_code r); [|congruence].
  intros _. apply andb_false_r.
Qed.

Lemma update_row_resolved (now : Z) (ps : list order_dict) (r : Row) :
  row_execution_code r <> None -> update_row now ps r = r.
Proof.
  intros H. unfold update_row. induction ps as [|p ps IH]; simpl; [reflexivity|].
  now rewrite where_clause_resolved.
Qed.

Lemma update_row_no_match (now : Z) (ps : list order_dict) (r : Row) :
  Forall (fun p => where_clause p r = false) ps -> update_row now ps r = r.
Proof.
  unfold update_row. induction 1 as [|p ps Hp _ IH]; simpl; [reflexivity|].
  now rewrite Hp.
Qed.

Lemma update_row_first_match (now : Z) (pre post : list order_dict) (p : order_dict) (r : Row) :
  Forall (fun q => where_clause q r = false) pre ->
  where_clause p r = true ->
  update_row now (pre ++ p :: post) r = set_clause now p r.
Proof.
  intros Hpre Hp. unfold update_row. rewrite fold_left_app.
  fold (update_row now pre r). rewrite update_row_no_match by assumption.
  simpl. rewrite Hp. apply update_row_resolved. simpl. discriminate.
Qed.

(** ** Reconciliation *)

Lemma build_order_list_ok (ack : SubmitOrderAck) :
  decodable ack ->
  build_order_list ack = Ok (map (dict_of ack) (orderConfirmations ack)).
Proof.
  intros Hdec. unfold build_order_list. apply comprehension_ok.
  apply Forall_forall. intros c Hc. destruct (Hdec c Hc) as [code Hcode].
  unfold dict_of, decoded. rewrite Hcode. reflexivity.
Qed.

Lemma final_log_order_ok (now : Z) (ack : SubmitOrderAck) (ps : list order_dict) (w : World) :
  build_order_list ack = Ok ps ->
  final_log_order now ack w
  = (Ok tt, mkWorld (apply_updates now ps (table w)) (apply_updates now ps (table w))
                    (trace w ++ update_events now ps (table w) ++ [EvCommit])).
Proof.
  intros Hps. unfold final_log_order, bind, lift. rewrite Hps, executemany_spec.
  unfold commit. simpl. rewrite <- app_assoc. reflexivity.
Qed.

Lemma final_log_order_raise (now : Z) (ack : SubmitOrderAck) (e : exn) (w : World) :
  build_order_list ack = Raise e ->
  final_log_order now ack w = (Raise e, w).
Proof.
  intros He. unfold final_log_order, bind, lift. rewrite He. reflexivity.
Qed.

Lemma where_clause_dict_of (ack : SubmitOrderAck) (c : OrderConfirmation) (r : Row) :
  where_clause (dict_of ack c) r = true <->
  key_matches c r /\ row_execution_code r = None.
Proof.
  unfold where_clause, key_matches, dict_of. simpl.
  rewrite !andb_true_iff, Z.eqb_eq, Qeq_bool_iff.
  destruct (row_execution_code r); intuition congruence.
Qed.

Lemma where_clause_dict_of_false (ack : SubmitOrderAck) (c : OrderConfirmation) (r : Row) :
  ~ key_matches c r -> where_clause (dict_of ack c) r = false.
Proof.
  intros H. apply not_true_is_false. rewrite where_clause_dict_of. tauto.
Qed.

(** C10.  [final_log_order] decodes the statuses of all confirmations
    before it sends any statement: when the statuses of some confirmation
    do not decode, the call raises and leaves the world as it found it, so
    no row of the table is modified, nothing is committed and no statement
    appears in the trace. *)
Theorem final_log_order_decode_failure_aborts
    (now : Z) (ack : SubmitOrderAck) (c : OrderConfirmation) (e : exn) (w : World) :
  In c (orderConfirmations ack) ->
  get_execution_code (oc_executionStatus c) = Raise e ->
  exists e',
    final_log_order now ack w = (Raise e', w) /\
    table (snd (final_log_order now ack w)) = table w /\
    durable (snd (final_log_order now ack w)) = durable w /\
    trace (snd (final_log_order now ack w)) = trace w.
Proof.
  intros Hin He.
  destruct (comprehension_raises
              (fun lc_order_confirmation =>
                 result_bind (get_execution_code (oc_executionStatus lc_order_confirmation))
                   (fun encoded_executions =>
                      Ok (mkOrderDict (oc_loanId lc_order_confirmation)
                                      (oc_requestedAmount lc_order_confirmation)
                                      (oc_investedAmount lc_order_confirmation)
                                      encoded_executions
                                      (orderInstructId ack))))
              (orderConfirmations ack))
    as (_ & _ & _ & e' & _ & _ & _ & Hraise).
  { exists c, e. split; [assumption|]. rewrite He. reflexivity. }
  exists e'. rewrite (final_log_order_raise now ack e' w Hraise). simpl. auto.
Qed.

Lemma final_log_order_decode_failure_aborts_witness :
  exists e',
    final_log_order 1000 ack_garbled
      (mkWorld [intent_of_order 9 order_25; intent_of_order 9 order_500]
               [intent_of_order 9 order_25; intent_of_order 9 order_500] [])
    = (Raise e',
       mkWorld [intent_of_order 9 order_25; intent_of_order 9 order_500]
               [intent_of_order 9 order_25; intent_of_order 9 order_500] []).
Proof.
  destruct (final_log_order_decode_failure_aborts 1000 ack_garbled
              (mkOrderConfirmation 777 500 0 ["ORDER_LOST"]) (DecodeError "ORDER_LOST")
              (mkWorld [intent_of_order 9 order_25; intent_of_order 9 order_500]
                       [intent_of_order 9 order_25; intent_of_order 9 order_500] []))
    as (e' & H & _).
  - simpl. right. left. reflexivity.
  - reflexivity.
  - exists e'. exact H.
Defined.

(** C6.  When the statuses of every confirmation decode,
    [final_log_order] succeeds, keeps the number of rows, and treats each
    row of the table as follows.  A row that is already resolved, or whose
    (loan id, requested amount) no confirmation carries, is left as it is.
    An unresolved row is filled in from the first confirmation that
    carries its key: invested amount from the confirmation, external
    order id from the shared instruct id, acknowledgment time from the
    database clock, execution code from the decoded statuses; loan id,
    client id and requested amount stay.  The result is committed.  The
    statuses [ORDER_FULFILLED] alone decode to 1. *)
Theorem final_log_order_fills_matching_rows (now : Z) (ack : SubmitOrderAck) (w : World) :
  decodable ack ->
  exists w',
    final_log_order now ack w = (Ok tt, w') /\
    length (table w') = length (table w) /\
    durable w' = table w' /\
    (forall i r, nth_error (table w) i = Some r ->
       ((row_execution_code r <> None \/
         (forall c, In c (orderConfirmations ack) -> ~ key_matches c r)) ->
        nth_error (table w') i = Some r) /\
       (forall pre c post code,
          orderConfirmations ack = pre ++ c :: post ->
          Forall (fun c' => ~ key_matches c' r) pre ->
          key_matches c r ->
          row_execution_code r = None ->
          get_execution_code (oc_executionStatus c) = Ok code ->
          nth_error (table w') i =
          Some (mkRow (row_loan_id r) (row_client_id r) (row_requested_amount r)
                      (Some (oc_investedAmount c)) (Some (orderInstructId ack))
                      (Some now) (Some code)))) /\
    get_execution_code ["ORDER_FULFILLED"] = Ok 1.
Proof.
  intros Hdec. pose proof (build_order_list_ok ack Hdec) as Hps.
  eexists. split; [apply (final_log_order_ok now ack _ w Hps)|]. simpl.
  split; [apply apply_updates_length|]. split; [reflexivity|].
  split; [|reflexivity].
  intros i r Hi. rewrite apply_updates_map.
  rewrite nth_error_map, Hi. simpl. split.
  - intros [Hres|Hnone]; f_equal.
    + now apply update_row_resolved.
    + apply update_row_no_match. apply Forall_forall. intros p Hp.
      apply in_map_iff in Hp as (c & <- & Hc).
      apply where_clause_dict_of_false. now apply Hnone.
  - intros pre c post code Hsplit Hpre Hkey Hnull Hcode. f_equal.
    rewrite Hsplit, map_app. simpl.
    rewrite update_row_first_match.
    + unfold set_clause, dict_of, decoded. simpl. rewrite Hcode. reflexivity.
    + apply Forall_forall. intros p Hp.
      apply in_map_iff in Hp as (c' & <- & Hc').
      apply where_clause_dict_of_false.
      rewrite Forall_forall in Hpre. now apply Hpre.
    + apply where_clause_dict_of. split; assumption.
Qed.

Lemma decodable_ack_X1 : decodable ack_X1.
Proof. intros c [<-|[]]. exists 1. reflexivity. Qed.

Lemma final_log_order_fills_matching_rows_witness :
  decodable ack_X1 /\
  exists w',
    final_log_order 1000 ack_X1
      (mkWorld [intent_of_order 9 order_25] [intent_of_order 9 order_25] [])
    = (Ok tt, w') /\
    nth_error (table w') 0 =
    Some (mkRow 12345 9 25 (Some 25%Q) (Some "X1") (Some 1000) (Some 1)).
Proof.
  split; [exact decodable_ack_X1|].
  destruct (final_log_order_fills_matching_rows 1000 ack_X1
              (mkWorld [intent_of_order 9 order_25] [intent_of_order 9 order_25] [])
              decodable_ack_X1)
    as (w' & Hrun & _ & _ & Hrows & _).
  exists w'. split; [exact Hrun|].
  destruct (Hrows 0%nat (intent_of_order 9 order_25) eq_refl) as [_ Hfill].
  apply (Hfill [] (mkOrderConfirmation 12345 25 25 ["ORDER_FULFILLED"]) [] 1).
  - reflexivity.
  - constructor.
  - split; reflexivity.
  - reflexivity.
  - reflexivity.
Defined.

(** ** Idempotence of reconciliation *)

Lemma where_clause_set_clause (now : Z) (p q : order_dict) (r : Row) :
  where_clause p (set_clause now q r) = false.
Proof. apply where_clause_resolved. simpl. discriminate. Qed.

Lemma update_rows_settles (now : Z) (p : order_dict) (rows : list Row) :
  settled p (update_rows now p rows).
Proof.
  unfold settled, update_rows. apply Forall_forall. intros r' Hr'.
  apply in_map_iff in Hr' as (r & <- & _).
  destruct (where_clause p r) eqn:Hw; [apply where_clause_set_clause|exact Hw].
Qed.

Lemma update_rows_keeps_settled (now : Z) (p q : order_dict) (rows : list Row) :
  settled p rows -> settled p (update_rows now q rows).
Proof.
  unfold settled, update_rows. rewrite !Forall_forall. intros H r' Hr'.
  apply in_map_iff in Hr' as (r & <- & Hr).
  destruct (where_clause q r); [apply where_clause_set_clause|now apply H].
Qed.

Lemma apply_updates_settled (now : Z) (ps : list order_dict) (p : order_dict) (rows : list Row) :
  settled p rows \/ In p ps ->
  settled p (apply_updates now ps rows).
Proof.
  unfold apply_updates. revert rows.
  induction ps as [|q ps IH]; intros rows H; simpl.
  - destruct H as [H|[]]. exact H.
  - apply IH. destruct H as [H|[->|H]].
    + left. now apply update_rows_keeps_settled.
    + left. apply update_rows_settles.
    + right. exact H.
Qed.

Lemma settled_update_rows (now : Z) (p : order_dict) (rows : list Row) :
  settled p rows -> update_rows now p rows = rows /\ rowcount p rows = 0%nat.
Proof.
  unfold settled, update_rows, rowcount.
  induction 1 as [|r rows Hr _ [IHu IHc]]; simpl; [split; reflexivity|].
  rewrite Hr, IHu. split; [reflexivity|exact IHc].
Qed.

Lemma settled_apply_updates (now : Z) (ps : list order_dict) (rows : list Row) :
  Forall (fun p => settled p rows) ps ->
  apply_updates now ps rows = rows /\
  update_events now ps rows = map (fun p => EvUpdate p 0) ps.
Proof.
  unfold apply_updates.
  induction 1 as [|p ps Hp _ [IHu IHe]]; simpl; [split; reflexivity|].
  destruct (settled_update_rows now p rows Hp) as [-> ->].
  rewrite IHu, IHe. split; reflexivity.
Qed.

Lemma update_row_some_match (now : Z) (ps : list order_dict) (r : Row) :
  Exists (fun p => where_clause p r = true) ps ->
  exists p, In p ps /\ update_row now ps r = set_clause now p r.
Proof.
  induction ps as [|p ps IH]; intros Hex; [inversion Hex|].
  destruct (where_clause p r) eqn:Hw.
  - exists p. split; [left; reflexivity|].
    apply (update_row_first_match now [] ps p r); [constructor|exact Hw].
  - destruct IH as (q & Hq & Hrun).
    { inversion Hex; subst; [congruence|assumption]. }
    exists q. split; [right; exact Hq|].
    unfold update_row in *. simpl. rewrite Hw. exact Hrun.
Qed.

(** C2.  Delivering one acknowledgment twice (at any two clock readings):
    the first delivery resolves every unresolved row that carries the key
    of one of its confirmations, so that the row's execution code is no
    longer NULL; the second delivery succeeds, every one of its UPDATE
    statements affects zero rows, and the table is the same as after the
    first. *)
Theorem final_log_order_idempotent (now1 now2 : Z) (ack : SubmitOrderAck) (w : World) :
  decodable ack ->
  exists w1 w2,
    final_log_order now1 ack w = (Ok tt, w1) /\
    final_log_order now2 ack w1 = (Ok tt, w2) /\
    (forall i r c,
        nth_error (table w) i = Some r ->
        In c (orderConfirmations ack) ->
        key_matches c r ->
        row_execution_code r = None ->
        exists r', nth_error (table w1) i = Some r' /\
                   row_execution_code r' <> None /\
                   row_ex_order_id r' = Some (orderInstructId ack)) /\
    table w2 = table w1 /\
    durable w2 = durable w1 /\
    trace w2 = trace w1
               ++ map (fun c => EvUpdate (dict_of ack c) 0) (orderConfirmations ack)
               ++ [EvCommit].
Proof.
  intros Hdec. pose proof (build_order_list_ok ack Hdec) as Hps.
  set (ps := map (dict_of ack) (orderConfirmations ack)) in *.
  assert (Hsettled : Forall (fun p => settled p (apply_updates now1 ps (table w))) ps).
  { apply Forall_forall. intros p Hp. apply apply_updates_settled. now right. }
  destruct (settled_apply_updates now2 ps _ Hsettled) as [Hu He].
  eexists. eexists.
  split; [apply (final_log_order_ok now1 ack ps w Hps)|].
  split; [apply (final_log_order_ok now2 ack ps _ Hps)|]. simpl.
  rewrite Hu, He. repeat split.
  - intros i r c Hi Hc Hkey Hnull.
    rewrite apply_updates_map, nth_error_map, Hi. simpl.
    destruct (update_row_some_match now1 ps r) as (p & Hp & ->).
    { apply Exists_exists. exists (dict_of ack c). split.
      - apply in_map. exact Hc.
      - apply where_clause_dict_of. split; assumption. }
    apply in_map_iff in Hp as (c' & <- & _).
    eexists. split; [reflexivity|]. simpl. split; [discriminate|reflexivity].
  - unfold ps. rewrite map_map. reflexivity.
Qed.

Lemma final_log_order_idempotent_witness :
  decodable ack_X1 /\
  exists w1 w2,
    final_log_order 1000 ack_X1
      (mkWorld [intent_of_order 9 order_25] [intent_of_order 9 order_25] [])
    = (Ok tt, w1) /\
    final_log_order 2000 ack_X1 w1 = (Ok tt, w2) /\
    table w2 = table w1 /\
    trace w2 = trace w1 ++ [EvUpdate (mkOrderDict 12345 25 25 1 "X1") 0; EvCommit].
Proof.
  split; [exact decodable_ack_X1|].
  destruct (final_log_order_idempotent 1000 2000 ack_X1
              (mkWorld [intent_of_order 9 order_25] [intent_of_order 9 order_25] [])
              decodable_ack_X1)
    as (w1 & w2 & H1 & H2 & _ & Ht & _ & Htr).
  exists w1, w2. repeat split; assumption.
Defined.

(** ** The risk gate *)

Lemma gate_rejects (risk : Order -> bool) (orders : list Order) (order_pack : list LCOrder) :
  (exists order, In order orders /\ risk order = false) ->
  gate risk orders order_pack = None.
Proof.
  revert order_pack.
  induction orders as [|o rest IH]; intros order_pack (order & Hin & Hrej).
  - destruct Hin.
  - simpl. destruct (risk o) eqn:Ho; simpl; [|reflexivity].
    apply IH. destruct Hin as [->|Hin]; [congruence|]. eauto.
Qed.

Lemma gate_approves (risk : Order -> bool) (orders : list Order) (order_pack : list LCOrder) :
  forallb risk orders = true ->
  gate risk orders order_pack = Some (order_pack ++ map lc_of_order orders).
Proof.
  revert order_pack.
  induction orders as [|o rest IH]; intros order_pack Hall; simpl.
  - now rewrite app_nil_r.
  - simpl in Hall. apply andb_true_iff in Hall as [Ho Hrest].
    rewrite Ho. simpl. rewrite IH by assumption.
    rewrite <- app_assoc. reflexivity.
Qed.

Lemma update_events_no_insert_or_submit (now : Z) (ps : list order_dict) (rows : list Row) :
  forallb (fun ev => negb (is_insert_or_submit ev)) (update_events now ps rows) = true.
Proof.
  revert rows. induction ps as [|p ps IH]; intros rows; simpl; [reflexivity|apply IH].
Qed.

(** ** Submission *)

Section Submission.

Variable risk_check : Order -> bool.
Variable client_submit_order : Z -> list LCOrder -> result SubmitOrderAck.
Variable current_timestamp : Z.

Local Abbreviation run_orders :=
  (submit_orders risk_check client_submit_order current_timestamp) (only parsing).
Local Abbreviation run_order :=
  (submit_order risk_check client_submit_order current_timestamp) (only parsing).

(** C1.  When the risk manager rejects the order at some position of the
    batch, [submit_orders] leaves the world as it found it, whatever the
    orders before and after that position: the table and its committed
    state are the same, and the trace has gained no event, so no row was
    inserted and the marketplace client was not called. *)
Theorem submit_orders_rejection_no_side_effects
    (investor_id client_id : Z) (orders : list Order) (k : nat) (order : Order) (w : World) :
  nth_error orders k = Some order ->
  risk_check order = false ->
  table (snd (run_orders investor_id client_id orders w)) = table w /\
  durable (snd (run_orders investor_id client_id orders w)) = durable w /\
  trace (snd (run_orders investor_id client_id orders w)) = trace w.
Proof.
  intros Hk Hrej. unfold submit_orders.
  rewrite gate_rejects.
  - simpl. auto.
  - exists order. split; [eapply nth_error_In; eassumption|assumption].
Qed.

(** C4 (as amended).  When the risk manager rejects an order of the
    batch, [submit_orders] raises nothing and returns to its caller, and
    so does [submit_order] called on a rejected order. *)
Theorem submit_orders_rejection_returns_normally
    (investor_id client_id : Z) (orders : list Order) (order : Order) (w : World) :
  In order orders ->
  risk_check order = false ->
  (exists v, fst (run_orders investor_id client_id orders w) = Ok v) /\
  (exists v, fst (run_order investor_id client_id order w) = Ok v).
Proof.
  intros Hin Hrej. unfold submit_order, submit_orders.
  rewrite !gate_rejects.
  - split; exists tt; reflexivity.
  - exists order. split; [left; reflexivity|assumption].
  - exists order. split; assumption.
Qed.

(** The run of [submit_orders] on an approved batch, up to the answer of
    the marketplace client. *)
Lemma submit_orders_approved_run
    (investor_id client_id : Z) (orders : list Order) (w : World) :
  forallb risk_check orders = true ->
  run_orders investor_id client_id orders w
  = let intents := map (intent_of_order client_id) orders in
    let w1 := mkWorld (table w ++ intents) (table w ++ intents)
                      (trace w ++ map EvInsert intents ++ [EvCommit]
                               ++ [EvSubmit investor_id (map lc_of_order orders)]) in
    match client_submit_order investor_id (map lc_of_order orders) with
    | Ok ack => final_log_order current_timestamp ack w1
    | Raise e => (Raise e, w1)
    end.
Proof.
  intros Hall. unfold submit_orders.
  rewrite (gate_approves risk_check orders [] Hall). simpl.
  unfold bind, client_call. rewrite preliminary_log_order_spec. cbv zeta.
  rewrite map_map. simpl.
  change (fun x : Order =>
            intent_row (loanId (lc_of_order x)) client_id (requestedAmount (lc_of_order x)))
    with (intent_of_order client_id).
  rewrite <- !app_assoc. simpl.
  destruct (client_submit_order investor_id (map lc_of_order orders)); reflexivity.
Qed.

(** C5.  When the risk manager approves every order of a batch of N
    orders, [submit_orders] inserts one intent row per order, in batch
    order and with all outcome columns NULL, commits once after the last
    insert, and only then calls the marketplace client with the whole
    order pack; nothing that follows inserts a row or calls the client
    again, so the table ends N rows longer. *)
Theorem submit_orders_all_approved_logs_intent
    (investor_id client_id : Z) (orders : list Order) (w : World) :
  forallb risk_check orders = true ->
  exists rest,
    trace (snd (run_orders investor_id client_id orders w))
    = trace w
      ++ map EvInsert (map (intent_of_order client_id) orders)
      ++ [EvCommit]
      ++ [EvSubmit investor_id (map lc_of_order orders)]
      ++ rest /\
    forallb (fun ev => negb (is_insert_or_submit ev)) rest = true /\
    length (map (intent_of_order client_id) orders) = length orders /\
    Forall unresolved (map (intent_of_order client_id) orders) /\
    length (table (snd (run_orders investor_id client_id orders w)))
    = (length (table w) + length orders)%nat /\
    length (durable (snd (run_orders investor_id client_id orders w)))
    = (length (table w) + length orders)%nat.
Proof.
  intros Hall. rewrite (submit_orders_approved_run _ _ _ _ Hall). cbv zeta.
  set (intents := map (intent_of_order client_id) orders).
  assert (Hlen : length intents = length orders) by apply length_map.
  assert (Hun : Forall unresolved intents).
  { apply Forall_forall. intros r Hr. apply in_map_iff in Hr as (o & <- & _).
    repeat split. }
  destruct (client_submit_order investor_id (map lc_of_order orders)) as [ack|e].
  - destruct (build_order_list ack) as [ps|e] eqn:Hps.
    + rewrite (final_log_order_ok _ ack ps _ Hps). simpl.
      exists (update_events current_timestamp ps (table w ++ intents) ++ [EvCommit]).
      rewrite !apply_updates_length, length_app, Hlen.
      repeat split; try assumption.
      * rewrite <- !app_assoc. reflexivity.
      * rewrite forallb_app, update_events_no_insert_or_submit. reflexivity.
    + rewrite (final_log_order_raise _ ack e _ Hps). simpl.
      exists []. rewrite length_app, Hlen.
      repeat split; assumption.
  - simpl. exists []. rewrite length_app, Hlen.
    repeat split; assumption.
Qed.

End Submission.

(** ** The statements at the concrete session *)

Lemma submit_orders_rejection_no_side_effects_witness :
  nth_error [order_25; order_500] 1 = Some order_500 /\
  risk_upto_100 order_500 = false /\
  table (snd (submit_orders risk_upto_100 client_X1 1000 1 9
                            [order_25; order_500] empty_world)) = [] /\
  durable (snd (submit_orders risk_upto_100 client_X1 1000 1 9
                              [order_25; order_500] empty_world)) = [] /\
  trace (snd (submit_orders risk_upto_100 client_X1 1000 1 9
                            [order_25; order_500] empty_world)) = [].
Proof.
  split; [reflexivity|]. split; [reflexivity|].
  apply (submit_orders_rejection_no_side_effects risk_upto_100 client_X1 1000 1 9
           [order_25; order_500] 1 order_500 empty_world); reflexivity.
Defined.

(** C4 (as stated) fails.  The risk manager rejects the second order of
    the batch, and the call returns [None] to the caller without raising,
    exactly as the call on the approved one-order batch does; there is no
    exception that signals the rejection. *)
Lemma submit_orders_rejection_signal_counterexample :
  risk_upto_100 order_500 = false /\
  fst (submit_orders risk_upto_100 client_X1 1000 1 9
                     [order_25; order_500] empty_world) = Ok tt /\
  fst (submit_order risk_upto_100 client_X1 1000 1 9 order_500 empty_world) = Ok tt /\
  fst (submit_orders risk_upto_100 client_X1 1000 1 9 [order_25] empty_world) = Ok tt /\
  ~ (exists e, fst (submit_orders risk_upto_100 client_X1 1000 1 9
                                  [order_25; order_500] empty_world) = Raise e) /\
  ~ (exists e, fst (submit_order risk_upto_100 client_X1 1000 1 9
                                 order_500 empty_world) = Raise e).
Proof.
  repeat split; try reflexivity; intros [e He]; discriminate He.
Qed.

Lemma submit_orders_rejection_returns_normally_witness :
  In order_500 [order_25; order_500] /\
  risk_upto_100 order_500 = false /\
  (exists v, fst (submit_orders risk_upto_100 client_X1 1000 1 9
                                [order_25; order_500] empty_world) = Ok v) /\
  (exists v, fst (submit_order risk_upto_100 client_X1 1000 1 9
                               order_500 empty_world) = Ok v).
Proof.
  split; [right; left; reflexivity|]. split; [reflexivity|].
  apply (submit_orders_rejection_returns_normally risk_upto_100 client_X1 1000 1 9
           [order_25; order_500] order_500 empty_world).
  - right. left. reflexivity.
  - reflexivity.
Defined.

Lemma submit_orders_all_approved_logs_intent_witness :
  forallb risk_upto_100 [order_25] = true /\
  exists rest,
    trace (snd (submit_orders risk_upto_100 client_X1 1000 1 9 [order_25] empty_world))
    = [EvInsert (mkRow 12345 9 25 None None None None);
       EvCommit;
       EvSubmit 1 [mkLCOrder 12345 25 None]] ++ rest /\
    forallb (fun ev => negb (is_insert_or_submit ev)) rest = true /\
    length (table (snd (submit_orders risk_upto_100 client_X1 1000 1 9
                                      [order_25] empty_world))) = 1%nat.
Proof.
  split; [reflexivity|].
  destruct (submit_orders_all_approved_logs_intent risk_upto_100 client_X1 1000 1 9
              [order_25] empty_world eq_refl)
    as (rest & Htrace & Hrest & _ & _ & Hlen & _).
  exists rest. repeat split; assumption.
Defined.

(** The end-to-end scenario of the specification: the order is approved,
    logged, submitted and reconciled; the committed row carries the
    invested amount, the instruct id X1 and the execution code 1. *)
Example end_to_end_scenario :
  submit_order risk_upto_100 client_X1 1000 1 9 order_25 empty_world
  = (Ok tt,
     let row := mkRow 12345 9 25 (Some 25%Q) (Some "X1") (Some 1000) (Some 1) in
     mkWorld [row] [row]
             [EvInsert (mkRow 12345 9 25 None None None None);
              EvCommit;
              EvSubmit 1 [mkLCOrder 12345 25 None];
              EvUpdate (mkOrderDict 12345 25 25 1 "X1") 1;
              EvCommit]).
Proof. reflexivity. Qed.

(** The second scenario: the second of two orders fails the risk check;
    the ledger stays empty and the client is not called. *)
Example rejected_batch_scenario :
  submit_orders risk_upto_100 client_X1 1000 1 9 [order_25; order_500] empty_world
  = (Ok tt, empty_world).
Proof. reflexivity. Qed.

(** * Further properties of the module *)

(** ** The flag table and the decoder *)

Lemma comprehension_inv {A B : Type} (f : A -> result B) (l : list A) (ys : list B) :
  comprehension f l = Ok ys -> Forall2 (fun x y => f x = Ok y) l ys.
Proof.
  revert ys. induction l as [|x xs IH]; simpl; intros ys H.
  - injection H as <-. constructor.
  - destruct (f x) as [y|e] eqn:Hx; simpl in H; [|discriminate].
    destruct (comprehension f xs) as [ys'|e]; simpl in H; [|discriminate].
    injection H as <-. constructor; [exact Hx|]. now apply IH.
Qed.

Lemma comprehension_app {A B : Type} (f : A -> result B) (l1 l2 : list A) (ys1 ys2 : list B) :
  comprehension f l1 = Ok ys1 ->
  comprehension f l2 = Ok ys2 ->
  comprehension f (l1 ++ l2) = Ok (ys1 ++ ys2).
Proof.
  revert ys1. induction l1 as [|x xs IH]; simpl; intros ys1 H1 H2.
  - injection H1 as <-. exact H2.
  - destruct (f x) as [y|e]; simpl in *; [|discriminate].
    destruct (comprehension f xs) as [ys'|e]; simpl in *; [|discriminate].
    injection H1 as <-. rewrite (IH ys' eq_refl H2). reflexivity.
Qed.

(** A successful decoding, taken apart: the comprehension produced a
    non-empty list of values and the code is their fold. *)
Lemma get_execution_code_inv (l : list string) (code : Z) :
  get_execution_code l = Ok code ->
  exists v vs,
    comprehension (fun m => result_bind (from_str m) (fun s => Ok (value s))) l
    = Ok (v :: vs) /\
    code = fold_left ior vs v.
Proof.
  unfold get_execution_code. intros H.
  destruct (comprehension _ l) as [[|v vs]|e]; simpl in H; try discriminate.
  injection H as <-. eauto.
Qed.

Lemma fold_ior_lor (vs : list Z) (a b : Z) :
  fold_left ior vs (Z.lor a b) = Z.lor a (fold_left ior vs b).
Proof.
  revert b. induction vs as [|v vs IH]; intros b; simpl; [reflexivity|].
  unfold ior at 2 4. rewrite <- Z.lor_assoc. apply IH.
Qed.

(** X1.  The fifteen flag values are single bits below 2^15, and two
    different statuses never share a bit. *)
Theorem value_disjoint_bits (s t : ExecutionStatus) :
  (exists k, 0 <= k < 15 /\ value s = 2 ^ k) /\
  (s <> t -> Z.land (value s) (value t) = 0) /\
  (value s = value t -> s = t).
Proof.
  split; [|split].
  - exists (Z.log2 (value s)). split; [destruct s; simpl; lia|apply value_pow2].
  - intros Hne. destruct s, t; try reflexivity; now destruct Hne.
  - intros H. apply log2_value_inj. now rewrite H.
Qed.

Lemma value_disjoint_bits_witness :
  Z.land (value ORDER_FULFILLED) (value SYSTEM_BUSY) = 0.
Proof.
  apply (value_disjoint_bits ORDER_FULFILLED SYSTEM_BUSY). discriminate.
Defined.

Lemma lor_range (a b : Z) :
  1 <= a < 2 ^ 15 -> 1 <= b < 2 ^ 15 -> 1 <= Z.lor a b < 2 ^ 15.
Proof.
  intros Ha Hb.
  assert (Hnn : 0 <= Z.lor a b) by (apply Z.lor_nonneg; lia).
  assert (Hnz : Z.lor a b <> 0).
  { intros H0. apply Z.lor_eq_0_iff in H0. lia. }
  split; [lia|].
  apply Z.log2_lt_pow2; [lia|].
  rewrite Z.log2_lor by lia.
  apply Z.max_lub_lt; apply Z.log2_lt_pow2; lia.
Qed.

(** X2.  A code returned by the decoder is never zero and fits in fifteen
    bits: it lies between 1 and 32767. *)
Theorem get_execution_code_range (l : list string) (code : Z) :
  get_execution_code l = Ok code ->
  1 <= code <= 32767.
Proof.
  intros H. apply get_execution_code_inv in H as (v & vs & Hc & ->).
  apply comprehension_inv in Hc.
  assert (Hall : Forall (fun y => 1 <= y < 2 ^ 15) (v :: vs)).
  { clear - Hc. induction Hc as [|m y ms ys Hm _ IH]; constructor; [|exact IH].
    destruct (from_str m) as [s|e]; simpl in Hm; [|discriminate].
    injection Hm as <-. destruct s; simpl; lia. }
  inversion Hall as [|? ? Hv Hvs]; subst. clear Hall Hc.
  cut (1 <= fold_left ior vs v < 2 ^ 15); [simpl; lia|].
  revert v Hv. induction Hvs as [|y ys Hy _ IH]; intros v Hv; simpl; [exact Hv|].
  apply IH. now apply lor_range.
Qed.

Lemma get_execution_code_range_witness :
  1 <= 1040 <= 32767.
Proof.
  apply (get_execution_code_range ["REQUESTED_AMNT_ROUNDED"; "NOTE_ADDED_TO_PORTFOLIO"] 1040).
  reflexivity.
Defined.

(** X3.  Decoding distributes over concatenation: when two lists decode,
    their concatenation decodes to the bitwise or of the two codes. *)
Theorem get_execution_code_app (l1 l2 : list string) (a b : Z) :
  get_execution_code l1 = Ok a ->
  get_execution_code l2 = Ok b ->
  get_execution_code (l1 ++ l2) = Ok (Z.lor a b).
Proof.
  intros Ha Hb.
  apply get_execution_code_inv in Ha as (x & xs & Hx & ->).
  apply get_execution_code_inv in Hb as (y & ys & Hy & ->).
  unfold get_execution_code. rewrite (comprehension_app _ _ _ _ _ Hx Hy). simpl.
  rewrite fold_left_app. simpl. unfold ior at 2. rewrite fold_ior_lor. reflexivity.
Qed.

Lemma get_execution_code_app_witness :
  get_execution_code (["ORDER_FULFILLED"] ++ ["REQUESTED_AMNT_ROUNDED"; "ORDER_FULFILLED"])
  = Ok (Z.lor 1 17).
Proof.
  apply (get_execution_code_app ["ORDER_FULFILLED"]
           ["REQUESTED_AMNT_ROUNDED"; "ORDER_FULFILLED"] 1 17); reflexivity.
Defined.

Lemma decode_name_encoded (m : string) (y : Z) :
  result_bind (from_str m) (fun s => Ok (value s)) = Ok y ->
  result_bind (from_str m) (fun s => Ok (value s)) = Ok (encoded m).
Proof.
  unfold encoded. destruct (from_str m); simpl; [reflexivity|discriminate].
Qed.

Lemma get_execution_code_bits_of (l : list string) :
  l <> [] ->
  Forall (fun m => result_bind (from_str m) (fun s => Ok (value s)) = Ok (encoded m)) l ->
  exists code,
    get_execution_code l = Ok code /\
    forall i, Z.testbit code i = existsb (fun m => Z.testbit (encoded m) i) l.
Proof.
  intros Hne Hall. unfold get_execution_code.
  rewrite (comprehension_ok _ encoded _ Hall).
  destruct l as [|m ms]; [contradiction|]. simpl.
  eexists; split; [reflexivity|]. intros i.
  rewrite fold_ior_testbit. f_equal.
  clear. induction ms as [|x xs IH]; simpl; [reflexivity|]. now rewrite IH.
Qed.

Lemma get_execution_code_Ok_names (l : list string) (code : Z) :
  get_execution_code l = Ok code ->
  l <> [] /\
  Forall (fun m => result_bind (from_str m) (fun s => Ok (value s)) = Ok (encoded m)) l.
Proof.
  intros H. apply get_execution_code_inv in H as (v & vs & Hc & _).
  apply comprehension_inv in Hc. split.
  - intros ->. inversion Hc.
  - clear - Hc. induction Hc as [|m y ms ys Hm _ IH]; constructor; [|exact IH].
    eapply decode_name_encoded. exact Hm.
Qed.

(** X4.  The code depends only on which names occur in the list: a list
    with the same names as a list that decodes, in any order and with any
    repetitions, decodes to the same code. *)
Theorem get_execution_code_same_names (l l' : list string) (code : Z) :
  get_execution_code l = Ok code ->
  (forall m, In m l <-> In m l') ->
  get_execution_code l' = Ok code.
Proof.
  intros Hcode Hsame.
  destruct (get_execution_code_Ok_names l code Hcode) as [Hne Hall].
  assert (Hne' : l' <> []).
  { destruct l as [|m ms]; [contradiction|]. intros ->.
    apply (Hsame m). left. reflexivity. }
  assert (Hall' : Forall (fun m => result_bind (from_str m) (fun s => Ok (value s))
                                   = Ok (encoded m)) l').
  { rewrite Forall_forall in *. intros m Hm. apply Hall, Hsame, Hm. }
  destruct (get_execution_code_bits_of l Hne Hall) as (c & Hc & Hbits).
  destruct (get_execution_code_bits_of l' Hne' Hall') as (c' & Hc' & Hbits').
  rewrite Hcode in Hc. injection Hc as <-.
  rewrite Hc'. f_equal. apply Z.bits_inj. intros i.
  rewrite Hbits, Hbits'. apply eq_true_iff_eq. rewrite !existsb_exists.
  split; intros (m & Hm & Hb); exists m; split; try assumption; now apply Hsame.
Qed.

Lemma get_execution_code_same_names_witness :
  get_execution_code ["SYSTEM_BUSY"; "ORDER_FULFILLED"; "SYSTEM_BUSY"] = Ok 8193.
Proof.
  apply (get_execution_code_same_names ["ORDER_FULFILLED"; "SYSTEM_BUSY"]
           ["SYSTEM_BUSY"; "ORDER_FULFILLED"; "SYSTEM_BUSY"] 8193).
  - reflexivity.
  - intros m. simpl. tauto.
Defined.

Lemma fold_ior_values_sum (ss : list ExecutionStatus) :
  NoDup ss ->
  fold_left ior (map value ss) 0 = fold_right Z.add 0 (map value ss).
Proof.
  induction 1 as [|t rest Hnotin _ IH]; [reflexivity|].
  cbn [map fold_left fold_right].
  change (ior 0 (value t)) with (value t).
  rewrite <- (Z.lor_0_r (value t)) at 1. rewrite fold_ior_lor, IH.
  assert (Hland : Z.land (value t) (fold_right Z.add 0 (map value rest)) = 0).
  { rewrite <- IH. apply Z.bits_inj. intros i.
    rewrite Z.land_spec, Z.bits_0, fold_ior_testbit, Z.bits_0. simpl.
    rewrite value_testbit.
    destruct (Z.eqb_spec (Z.log2 (value t)) i) as [<-|_]; [|reflexivity]. simpl.
    apply not_true_is_false. intros Hex.
    apply existsb_exists in Hex as (v & Hv & Hb).
    apply in_map_iff in Hv as (t' & <- & Ht').
    rewrite value_testbit in Hb. apply Z.eqb_eq, log2_value_inj in Hb.
    subst t'. contradiction. }
  rewrite <- (Z.lxor_lor _ _ Hland). symmetry. now apply Z.add_nocarry_lxor.
Qed.

(** X5.  The names of pairwise different statuses decode to the sum of
    their flag values. *)
Theorem get_execution_code_distinct_sum (ss : list ExecutionStatus) :
  ss <> [] ->
  NoDup ss ->
  get_execution_code (map name ss) = Ok (fold_right Z.add 0 (map value ss)).
Proof.
  intros Hne Hnd. unfold get_execution_code.
  rewrite (comprehension_ok _ (fun m => encoded m)).
  - rewrite map_map.
    replace (map (fun s => encoded (name s)) ss) with (map value ss).
    + destruct ss as [|s rest]; [contradiction|]. simpl. f_equal.
      pose proof (fold_ior_values_sum (s :: rest) Hnd) as Hsum. simpl in Hsum.
      exact Hsum.
    + apply map_ext. intros s. unfold encoded. now rewrite from_str_name.
  - apply Forall_forall. intros m Hm. apply in_map_iff in Hm as (s & <- & _).
    unfold encoded. rewrite from_str_name. reflexivity.
Qed.

Lemma get_execution_code_distinct_sum_witness :
  get_execution_code (map name [INSUFFICIENT_CASH; NOT_AN_INVESTOR; UNKNOWN_ERROR])
  = Ok (fold_right Z.add 0 (map value [INSUFFICIENT_CASH; NOT_AN_INVESTOR; UNKNOWN_ERROR])).
Proof.
  apply (get_execution_code_distinct_sum [INSUFFICIENT_CASH; NOT_AN_INVESTOR; UNKNOWN_ERROR]).
  - discriminate.
  - repeat constructor; simpl; intuition discriminate.
Defined.

(** ** Failures after the intent is logged *)

Lemma build_order_list_raises (ack : SubmitOrderAck) (c : OrderConfirmation) (e : exn) :
  In c (orderConfirmations ack) ->
  get_execution_code (oc_executionStatus c) = Raise e ->
  exists e', build_order_list ack = Raise e'.
Proof.
  intros Hin He. unfold build_order_list.
  edestruct (comprehension_raises
               (fun c' =>
                  result_bind (get_execution_code (oc_executionStatus c'))
                    (fun code =>
                       Ok (mkOrderDict (oc_loanId c') (oc_requestedAmount c')
                                       (oc_investedAmount c') code (orderInstructId ack))))
               (orderConfirmations ack))
    as (_ & _ & _ & e' & _ & _ & _ & Hraise).
  - exists c, e. split; [exact Hin|]. rewrite He. reflexivity.
  - exists e'. exact Hraise.
Qed.

Lemma forallb_false_exists {A : Type} (f : A -> bool) (l : list A) :
  forallb f l = false -> exists x, In x l /\ f x = false.
Proof.
  induction l as [|a l IH]; simpl; [discriminate|].
  destruct (f a) eqn:Ha; simpl.
  - intros H. destruct (IH H) as (x & Hx & Hfx). eauto.
  - intros _. eauto.
Qed.

(** X6.  When every order is approved and the marketplace client raises,
    [submit_orders] raises the client's exception; the intent rows of the
    batch have been inserted and committed and stay unresolved, and no
    UPDATE is sent. *)
Theorem submit_orders_client_failure
    (risk : Order -> bool) (client : Z -> list LCOrder -> result SubmitOrderAck)
    (now investor_id client_id : Z) (orders : list Order) (e : exn) (w : World) :
  forallb risk orders = true ->
  client investor_id (map lc_of_order orders) = Raise e ->
  submit_orders risk client now investor_id client_id orders w
  = (Raise e,
     mkWorld (table w ++ map (intent_of_order client_id) orders)
             (table w ++ map (intent_of_order client_id) orders)
             (trace w ++ map EvInsert (map (intent_of_order client_id) orders)
                      ++ [EvCommit; EvSubmit investor_id (map lc_of_order orders)])).
Proof.
  intros Hall He.
  rewrite (submit_orders_approved_run risk client now _ _ _ _ Hall). cbv zeta.
  rewrite He. reflexivity.
Qed.

(** X7.  When every order is approved and the acknowledgment of the
    marketplace contains a confirmation whose statuses do not decode,
    [submit_orders] raises after the orders were submitted; the intent
    rows of the batch are committed and unresolved, and no UPDATE is
    sent, not even for the confirmations that do decode. *)
Theorem submit_orders_undecodable_acknowledgment
    (risk : Order -> bool) (client : Z -> list LCOrder -> result SubmitOrderAck)
    (now investor_id client_id : Z) (orders : list Order)
    (ack : SubmitOrderAck) (c : OrderConfirmation) (e : exn) (w : World) :
  forallb risk orders = true ->
  client investor_id (map lc_of_order orders) = Ok ack ->
  In c (orderConfirmations ack) ->
  get_execution_code (oc_executionStatus c) = Raise e ->
  exists e',
    submit_orders risk client now investor_id client_id orders w
    = (Raise e',
       mkWorld (table w ++ map (intent_of_order client_id) orders)
               (table w ++ map (intent_of_order client_id) orders)
               (trace w ++ map EvInsert (map (intent_of_order client_id) orders)
                        ++ [EvCommit; EvSubmit investor_id (map lc_of_order orders)])).
Proof.
  intros Hall Hack Hin He.
  destruct (build_order_list_raises ack c e Hin He) as [e' He'].
  exists e'.
  rewrite (submit_orders_approved_run risk client now _ _ _ _ Hall). cbv zeta.
  rewrite Hack. apply final_log_order_raise. exact He'.
Qed.

(** X8.  [submit_orders] leaves no uncommitted change behind: if the
    table had none when the call started, it has none when the call
    returns or raises, on every path (rejection, client failure, decode
    failure, success). *)
Theorem submit_orders_leaves_nothing_uncommitted
    (risk : Order -> bool) (client : Z -> list LCOrder -> result SubmitOrderAck)
    (now investor_id client_id : Z) (orders : list Order) (w : World) :
  durable w = table w ->
  durable (snd (submit_orders risk client now investor_id client_id orders w))
  = table (snd (submit_orders risk client now investor_id client_id orders w)).
Proof.
  intros Hclean. destruct (forallb risk orders) eqn:Hall.
  - rewrite (submit_orders_approved_run risk client now _ _ _ _ Hall). cbv zeta.
    destruct (client investor_id (map lc_of_order orders)) as [ack|e]; [|reflexivity].
    destruct (build_order_list ack) as [ps|e] eqn:Hps.
    + rewrite (final_log_order_ok now ack ps _ Hps). reflexivity.
    + rewrite (final_log_order_raise now ack e _ Hps). reflexivity.
  - unfold submit_orders.
    rewrite (gate_rejects risk orders [] (forallb_false_exists risk orders Hall)).
    exact Hclean.
Qed.

Lemma apply_updates_identity (now : Z) (ps : list order_dict) (rows : list Row) :
  map identity_columns (apply_updates now ps rows) = map identity_columns rows.
Proof.
  unfold apply_updates. revert rows.
  induction ps as [|p ps IH]; intros rows; simpl; [reflexivity|].
  rewrite IH. unfold update_rows. rewrite map_map. apply map_ext.
  intros r. destruct (where_clause p r); reflexivity.
Qed.

(** X9.  [final_log_order] never inserts, deletes, reorders or re-keys a
    row: loan id, client id and requested amount of every row are the
    same after the call, whatever the acknowledgment. *)
Theorem final_log_order_keeps_identity (now : Z) (ack : SubmitOrderAck) (w : World) :
  map identity_columns (table (snd (final_log_order now ack w)))
  = map identity_columns (table w).
Proof.
  destruct (build_order_list ack) as [ps|e] eqn:Hps.
  - rewrite (final_log_order_ok now ack ps w Hps). simpl.
    apply apply_updates_identity.
  - rewrite (final_log_order_raise now ack e w Hps). reflexivity.
Qed.

(** X10.  [submit_orders] keeps every row that was in the table, in
    place and with the same loan id, client id and requested amount; the
    rows it adds come after them: the intent rows of the batch when every
    order is approved, and none otherwise. *)
Theorem submit_orders_keeps_existing_rows
    (risk : Order -> bool) (client : Z -> list LCOrder -> result SubmitOrderAck)
    (now investor_id client_id : Z) (orders : list Order) (w : World) :
  map identity_columns
      (table (snd (submit_orders risk client now investor_id client_id orders w)))
  = map identity_columns (table w)
    ++ map identity_columns
         (if forallb risk orders then map (intent_of_order client_id) orders else []).
Proof.
  destruct (forallb risk orders) eqn:Hall.
  - rewrite (submit_orders_approved_run risk client now _ _ _ _ Hall). cbv zeta.
    rewrite <- map_app.
    destruct (client investor_id (map lc_of_order orders)) as [ack|e]; [|reflexivity].
    destruct (build_order_list ack) as [ps|e] eqn:Hps.
    + rewrite (final_log_order_ok now ack ps _ Hps). simpl.
      apply apply_updates_identity.
    + rewrite (final_log_order_raise now ack e _ Hps). reflexivity.
  - unfold submit_orders.
    rewrite (gate_rejects risk orders [] (forallb_false_exists risk orders Hall)).
    simpl. now rewrite app_nil_r.
Qed.

Lemma submit_orders_client_failure_witness :
  submit_orders risk_upto_100 client_down 1000 1 9 [order_25] empty_world
  = (Raise (ClientError "connection timed out"),
     mkWorld [intent_of_order 9 order_25] [intent_of_order 9 order_25]
             [EvInsert (intent_of_order 9 order_25); EvCommit;
              EvSubmit 1 [lc_of_order order_25]]).
Proof.
  apply (submit_orders_client_failure risk_upto_100 client_down 1000 1 9 [order_25]
           (ClientError "connection timed out") empty_world); reflexivity.
Defined.

Lemma submit_orders_undecodable_acknowledgment_witness :
  exists e',
    submit_orders risk_upto_100 client_garbled 1000 1 9 [order_25] empty_world
    = (Raise e',
       mkWorld [intent_of_order 9 order_25] [intent_of_order 9 order_25]
               [EvInsert (intent_of_order 9 order_25); EvCommit;
                EvSubmit 1 [lc_of_order order_25]]).
Proof.
  apply (submit_orders_undecodable_acknowledgment risk_upto_100 client_garbled 1000 1 9
           [order_25] ack_garbled (mkOrderConfirmation 777 500 0 ["ORDER_LOST"])
           (DecodeError "ORDER_LOST") empty_world).
  - reflexivity.
  - reflexivity.
  - right. left. reflexivity.
  - reflexivity.
Defined.

Lemma submit_orders_leaves_nothing_uncommitted_witness :
  durable (snd (submit_orders risk_upto_100 client_X1 1000 1 9 [order_25] empty_world))
  = table (snd (submit_orders risk_upto_100 client_X1 1000 1 9 [order_25] empty_world)).
Proof.
  apply (submit_orders_leaves_nothing_uncommitted risk_upto_100 client_X1 1000 1 9
           [order_25] empty_world).
  reflexivity.
Defined.

(** ** Counting what reconciliation resolves *)

Lemma where_clause_null (p : order_dict) (r : Row) :
  where_clause p r = true -> code_is_null r = true.
Proof.
  unfold where_clause, code_is_null. intros H.
  apply andb_true_iff in H as [_ H]. exact H.
Qed.

Lemma update_rows_count (now : Z) (p : order_dict) (rows : list Row) :
  count_unresolved rows
  = (rowcount p rows + count_unresolved (update_rows now p rows))%nat.
Proof.
  unfold count_unresolved, rowcount, update_rows.
  induction rows as [|r rows IH]; simpl; [reflexivity|].
  destruct (where_clause p r) eqn:Hw.
  - rewrite (where_clause_null p r Hw). simpl. rewrite IH. reflexivity.
  - destruct (code_is_null r); simpl; rewrite IH; lia.
Qed.

Lemma apply_updates_count (now : Z) (ps : list order_dict) (rows : list Row) :
  count_unresolved rows
  = (affected (update_events now ps rows)
     + count_unresolved (apply_updates now ps rows))%nat.
Proof.
  unfold apply_updates. revert rows.
  induction ps as [|p ps IH]; intros rows; simpl; [reflexivity|].
  rewrite (update_rows_count now p rows), (IH (update_rows now p rows)). lia.
Qed.

Lemma affected_app (evs1 evs2 : list Event) :
  affected (evs1 ++ evs2) = (affected evs1 + affected evs2)%nat.
Proof.
  induction evs1 as [|ev evs1 IH]; simpl; [reflexivity|].
  destruct ev; rewrite IH; lia.
Qed.

(** X11.  The affected-row counts of the UPDATE statements of one
    [final_log_order] add up to the number of rows the call resolved:
    the unresolved rows before the call are the rows the statements
    affected plus the rows still unresolved after it. *)
Theorem final_log_order_affected_rows (now : Z) (ack : SubmitOrderAck) (w : World) :
  exists evs,
    trace (snd (final_log_order now ack w)) = trace w ++ evs /\
    count_unresolved (table w)
    = (affected evs + count_unresolved (table (snd (final_log_order now ack w))))%nat.
Proof.
  destruct (build_order_list ack) as [ps|e] eqn:Hps.
  - rewrite (final_log_order_ok now ack ps w Hps). simpl.
    exists (update_events now ps (table w) ++ [EvCommit]). split; [reflexivity|].
    rewrite affected_app. simpl. rewrite Nat.add_0_r. apply apply_updates_count.
  - rewrite (final_log_order_raise now ack e w Hps). simpl.
    exists []. split; [now rewrite app_nil_r|reflexivity].
Qed.

(** ** Rows that share a reconciliation key *)

Lemma Qeq_bool_compat_l (x x' y : Q) :
  (x == x')%Q -> Qeq_bool x y = Qeq_bool x' y.
Proof.
  intros Hx. apply eq_true_iff_eq. rewrite !Qeq_bool_iff.
  split; intros H.
  - now rewrite <- Hx.
  - now rewrite Hx.
Qed.

Lemma update_row_same_key (now : Z) (ps : list order_dict) (r1 r2 : Row) :
  row_loan_id r1 = row_loan_id r2 ->
  (row_requested_amount r1 == row_requested_amount r2)%Q ->
  outcome_columns r1 = outcome_columns r2 ->
  outcome_columns (update_row now ps r1) = outcome_columns (update_row now ps r2).
Proof.
  unfold update_row. revert r1 r2.
  induction ps as [|p ps IH]; intros r1 r2 Hloan Hamt Hout; simpl; [exact Hout|].
  assert (Hw : where_clause p r1 = where_clause p r2).
  { unfold where_clause. rewrite Hloan, (Qeq_bool_compat_l _ _ _ Hamt).
    unfold outcome_columns in Hout. injection Hout as _ _ _ Hcode.
    rewrite Hcode. reflexivity. }
  rewrite Hw. destruct (where_clause p r2).
  - apply IH; simpl; try assumption. reflexivity.
  - apply IH; assumption.
Qed.

(** X12.  Two unresolved rows with the same loan id and requested amount
    cannot be told apart by reconciliation: after [final_log_order] their
    outcome columns are equal, so a confirmation that resolves one of
    them resolves the other with the same values. *)
Theorem final_log_order_same_key_same_outcome
    (now : Z) (ack : SubmitOrderAck) (w : World) (i j : nat) (ri rj : Row) :
  nth_error (table w) i = Some ri ->
  nth_error (table w) j = Some rj ->
  row_loan_id ri = row_loan_id rj ->
  (row_requested_amount ri == row_requested_amount rj)%Q ->
  unresolved ri ->
  unresolved rj ->
  exists ri' rj',
    nth_error (table (snd (final_log_order now ack w))) i = Some ri' /\
    nth_error (table (snd (final_log_order now ack w))) j = Some rj' /\
    outcome_columns ri' = outcome_columns rj'.
Proof.
  intros Hi Hj Hloan Hamt (Hi1 & Hi2 & Hi3 & Hi4) (Hj1 & Hj2 & Hj3 & Hj4).
  assert (Hout : outcome_columns ri = outcome_columns rj).
  { unfold outcome_columns. congruence. }
  destruct (build_order_list ack) as [ps|e] eqn:Hps.
  - rewrite (final_log_order_ok now ack ps w Hps). simpl.
    rewrite apply_updates_map, !nth_error_map, Hi, Hj. simpl.
    eexists. eexists. split; [reflexivity|]. split; [reflexivity|].
    now apply update_row_same_key.
  - rewrite (final_log_order_raise now ack e w Hps). simpl.
    exists ri, rj. auto.
Qed.

Lemma final_log_order_same_key_same_outcome_witness :
  exists ri' rj',
    nth_error (table (snd (final_log_order 1000 ack_X1
                             (mkWorld [intent_of_order 9 order_25; intent_of_order 4 order_25]
                                      [] [])))) 0 = Some ri' /\
    nth_error (table (snd (final_log_order 1000 ack_X1
                             (mkWorld [intent_of_order 9 order_25; intent_of_order 4 order_25]
                                      [] [])))) 1 = Some rj' /\
    outcome_columns ri' = outcome_columns rj'.
Proof.
  apply (final_log_order_same_key_same_outcome 1000 ack_X1
           (mkWorld [intent_of_order 9 order_25; intent_of_order 4 order_25] [] [])
           0 1 (intent_of_order 9 order_25) (intent_of_order 4 order_25));
    try reflexivity; repeat split.
Defined.

(** ** A batch the marketplace confirms in full *)

Lemma update_row_matching (now : Z) (ps : list order_dict) (r : Row) :
  Exists (fun p => where_clause p r = true) ps ->
  exists p,
    In p ps /\ where_clause p r = true /\ update_row now ps r = set_clause now p r.
Proof.
  induction ps as [|p ps IH]; intros Hex; [inversion Hex|].
  destruct (where_clause p r) eqn:Hw.
  - exists p. split; [left; reflexivity|]. split; [exact Hw|].
    apply (update_row_first_match now [] ps p r); [constructor|exact Hw].
  - destruct IH as (q & Hq & Hwq & Hrun).
    { inversion Hex; subst; [congruence|assumption]. }
    exists q. split; [right; exact Hq|]. split; [exact Hwq|].
    unfold update_row in *. simpl. rewrite Hw. exact Hrun.
Qed.

(** X13.  When every order of the batch is approved and the marketplace
    answers with decodable confirmations that include, for every order, a
    confirmation with the order's loan id and amount, [submit_orders]
    returns normally and the row inserted for the k-th order ends
    resolved: it carries the order's loan id and amount, the client id,
    the instruct id of the acknowledgment, the time of reconciliation and
    a non-NULL execution code. *)
Theorem submit_orders_confirmed_batch_resolved
    (risk : Order -> bool) (client : Z -> list LCOrder -> result SubmitOrderAck)
    (now investor_id client_id : Z) (orders : list Order)
    (ack : SubmitOrderAck) (w : World) :
  forallb risk orders = true ->
  client investor_id (map lc_of_order orders) = Ok ack ->
  decodable ack ->
  (forall o, In o orders ->
     exists c, In c (orderConfirmations ack) /\
               oc_loanId c = loan_id o /\
               (oc_requestedAmount c == amount o)%Q) ->
  fst (submit_orders risk client now investor_id client_id orders w) = Ok tt /\
  forall k o,
    nth_error orders k = Some o ->
    exists r,
      nth_error (table (snd (submit_orders risk client now investor_id client_id orders w)))
                (length (table w) + k) = Some r /\
      identity_columns r = (loan_id o, client_id, amount o) /\
      row_ex_order_id r = Some (orderInstructId ack) /\
      row_time_acknowledged r = Some now /\
      row_execution_code r <> None.
Proof.
  intros Hall Hack Hdec Hcover.
  rewrite (submit_orders_approved_run risk client now _ _ _ _ Hall). cbv zeta.
  rewrite Hack.
  rewrite (final_log_order_ok now ack _ _ (build_order_list_ok ack Hdec)). simpl.
  split; [reflexivity|].
  intros k o Hk.
  rewrite apply_updates_map, nth_error_map.
  rewrite nth_error_app2 by lia.
  replace (length (table w) + k - length (table w))%nat with k by lia.
  rewrite nth_error_map, Hk. simpl.
  destruct (Hcover o (nth_error_In _ _ Hk)) as (c & Hc & Hloan & Hamt).
  destruct (update_row_matching now (map (dict_of ack) (orderConfirmations ack))
              (intent_of_order client_id o))
    as (p & Hp & _ & ->).
  { apply Exists_exists. exists (dict_of ack c). split; [now apply in_map|].
    apply where_clause_dict_of. split; [|reflexivity].
    split; simpl; [now symmetry|now symmetry]. }
  apply in_map_iff in Hp as (c' & <- & _).
  eexists. split; [reflexivity|]. simpl. repeat split. discriminate.
Qed.

Lemma submit_orders_confirmed_batch_resolved_witness :
  fst (submit_orders risk_upto_100 client_X1 1000 1 9 [order_25] empty_world) = Ok tt /\
  forall k o,
    nth_error [order_25] k = Some o ->
    exists r,
      nth_error (table (snd (submit_orders risk_upto_100 client_X1 1000 1 9
                                           [order_25] empty_world)))
                (length (table empty_world) + k) = Some r /\
      identity_columns r = (loan_id o, 9, amount o) /\
      row_ex_order_id r = Some (orderInstructId ack_X1) /\
      row_time_acknowledged r = Some 1000 /\
      row_execution_code r <> None.
Proof.
  apply (submit_orders_confirmed_batch_resolved risk_upto_100 client_X1 1000 1 9
           [order_25] ack_X1 empty_world).
  - reflexivity.
  - reflexivity.
  - exact decodable_ack_X1.
  - intros o [<-|[]]. eexists. split; [left; reflexivity|]. split; reflexivity.
Defined.

(** ** The order of the confirmations *)

Lemma not_existsb_Forall {A : Type} (f : A -> bool) (l : list A) :
  existsb f l = false -> Forall (fun x => f x = false) l.
Proof.
  intros H. apply Forall_forall. intros x Hx.
  destruct (f x) eqn:Hfx; [|reflexivity].
  assert (Ht : existsb f l = true) by (apply existsb_exists; eauto).
  congruence.
Qed.

Lemma matching_confirmations_same_key
    (ack : SubmitOrderAck) (c1 c2 : OrderConfirmation) (r : Row) :
  where_clause (dict_of ack c1) r = true ->
  where_clause (dict_of ack c2) r = true ->
  same_key c1 c2.
Proof.
  intros H1 H2.
  apply where_clause_dict_of in H1 as [[Hl1 Ha1] _].
  apply where_clause_dict_of in H2 as [[Hl2 Ha2] _].
  split; [congruence|]. now rewrite <- Ha1, <- Ha2.
Qed.

(** X14.  When the statuses of every confirmation decode and no two
    confirmations of the acknowledgment carry the same loan id and
    requested amount, the table that [final_log_order] leaves does not
    depend on the order in which the acknowledgment lists them. *)
Theorem final_log_order_confirmation_order
    (now : Z) (ack : SubmitOrderAck) (confs' : list OrderConfirmation) (w : World) :
  decodable ack ->
  distinct_keys (orderConfirmations ack) ->
  Permutation (orderConfirmations ack) confs' ->
  table (snd (final_log_order now (mkSubmitOrderAck (orderInstructId ack) confs') w))
  = table (snd (final_log_order now ack w)).
Proof.
  intros Hdec Hdist Hperm.
  set (ack' := mkSubmitOrderAck (orderInstructId ack) confs').
  assert (Hdec' : decodable ack').
  { intros c Hc. apply Hdec. eapply Permutation_in; [apply Permutation_sym|]; eassumption. }
  rewrite (final_log_order_ok now ack _ w (build_order_list_ok ack Hdec)).
  rewrite (final_log_order_ok now ack' _ w (build_order_list_ok ack' Hdec')).
  simpl. rewrite !apply_updates_map. apply map_ext. intros r.
  change (map (dict_of ack') confs') with (map (dict_of ack) confs').
  set (ps := map (dict_of ack) (orderConfirmations ack)).
  set (ps' := map (dict_of ack) confs').
  assert (Hpp : Permutation ps ps') by (now apply Permutation_map).
  destruct (existsb (fun p => where_clause p r) ps) eqn:Hex.
  - apply existsb_exists in Hex as (p0 & Hp0 & Hw0).
    destruct (update_row_matching now ps r) as (p & Hp & Hw & ->).
    { apply Exists_exists. eauto. }
    destruct (update_row_matching now ps' r) as (p' & Hp' & Hw' & ->).
    { apply Exists_exists. exists p0. split; [|exact Hw0].
      eapply Permutation_in; eassumption. }
    apply (Permutation_in _ (Permutation_sym Hpp)) in Hp'.
    apply in_map_iff in Hp as (c & <- & Hc).
    apply in_map_iff in Hp' as (c' & <- & Hc').
    pose proof (matching_confirmations_same_key ack c' c r Hw' Hw) as Hkey.
    apply In_nth_error in Hc as [n Hn]. apply In_nth_error in Hc' as [n' Hn'].
    pose proof (Hdist _ _ _ _ Hn' Hn Hkey) as ->.
    rewrite Hn in Hn'. injection Hn' as ->. reflexivity.
  - pose proof (not_existsb_Forall _ _ Hex) as Hnone.
    assert (Hnone' : Forall (fun p => where_clause p r = false) ps').
    { rewrite Forall_forall in *. intros p Hp. apply Hnone.
      eapply Permutation_in; [apply Permutation_sym|]; eassumption. }
    now rewrite !update_row_no_match.
Qed.

Lemma final_log_order_confirmation_order_witness :
  table (snd (final_log_order 1000
                (mkSubmitOrderAck "X3"
                   [mkOrderConfirmation 777 500 450 ["LOAN_AMNT_EXCEEDED"];
                    mkOrderConfirmation 12345 25 25 ["ORDER_FULFILLED"]])
                (mkWorld [intent_of_order 9 order_25; intent_of_order 9 order_500] [] [])))
  = table (snd (final_log_order 1000
                  (mkSubmitOrderAck "X3"
                     [mkOrderConfirmation 12345 25 25 ["ORDER_FULFILLED"];
                      mkOrderConfirmation 777 500 450 ["LOAN_AMNT_EXCEEDED"]])
                  (mkWorld [intent_of_order 9 order_25; intent_of_order 9 order_500] [] []))).
Proof.
  apply (final_log_order_confirmation_order 1000
           (mkSubmitOrderAck "X3"
              [mkOrderConfirmation 12345 25 25 ["ORDER_FULFILLED"];
               mkOrderConfirmation 777 500 450 ["LOAN_AMNT_EXCEEDED"]])
           [mkOrderConfirmation 777 500 450 ["LOAN_AMNT_EXCEEDED"];
            mkOrderConfirmation 12345 25 25 ["ORDER_FULFILLED"]]).
  - intros c [<-|[<-|[]]]; eexists; reflexivity.
  - intros i j c1 c2 Hi Hj [Hloan _].
    destruct i as [|[|i]], j as [|[|j]]; simpl in Hi, Hj;
      try reflexivity; try discriminate;
      try (injection Hi as <-; injection Hj as <-; discriminate Hloan);
      try (destruct i; discriminate); try (destruct j; discriminate).
  - apply perm_swap.
Defined.

(** ** The sanitizer's term column *)

Lemma list_ascii_of_string_append (s1 s2 : string) :
  list_ascii_of_string (s1 ++ s2)%string
  = list_ascii_of_string s1 ++ list_ascii_of_string s2.
Proof.
  induction s1 as [|a s1 IH]; simpl; [reflexivity|]. now rewrite IH.
Qed.

Lemma lstrip_chars_prefix (chars pre rest : list Ascii.ascii) :
  Forall (fun a => in_chars chars a = true) pre ->
  lstrip_chars chars (pre ++ rest) = lstrip_chars chars rest.
Proof.
  induction 1 as [|a pre Ha _ IH]; simpl; [reflexivity|]. now rewrite Ha.
Qed.

Lemma lstrip_chars_stop (chars : list Ascii.ascii) (a : Ascii.ascii) (s : list Ascii.ascii) :
  in_chars chars a = false -> lstrip_chars chars (a :: s) = a :: s.
Proof. intros Ha. simpl. now rewrite Ha. Qed.

Lemma digit_not_in_months (a : Ascii.ascii) :
  is_digit a = true -> in_chars (list_ascii_of_string " months") a = false.
Proof.
  destruct a as [[] [] [] [] [] [] [] []]; intros H; try discriminate H; reflexivity.
Qed.

(** X15.  [_term_to_int] hands to [int] the digits of the term alone:
    around a non-empty string of decimal digits, any characters taken
    from blank, m, o, n, t, h and s are removed, at the front and at the
    back and in any order, so that the result is [int] of the digits. *)
Theorem term_to_int_strips_affixes
    (int : string -> result Z) (pre d post : string) :
  made_of " months" pre ->
  made_of " months" post ->
  d <> ""%string ->
  all_digits d ->
  _term_to_int int (pre ++ d ++ post)%string = int d.
Proof.
  unfold made_of, all_digits, _term_to_int, strip. cbv zeta.
  intros Hpre Hpost Hne Hd. f_equal.
  rewrite !list_ascii_of_string_append.
  set (cs := list_ascii_of_string " months") in *.
  rewrite (lstrip_chars_prefix cs _ _ Hpre).
  destruct (list_ascii_of_string d) as [|a ds] eqn:Hlist.
  { destruct d; [contradiction|discriminate]. }
  rewrite <- app_comm_cons, lstrip_chars_stop
    by (apply digit_not_in_months; now inversion Hd).
  rewrite app_comm_cons, rev_app_distr.
  rewrite lstrip_chars_prefix by (apply Forall_rev; exact Hpost).
  assert (Hlast : exists b front, rev (a :: ds) = b :: front /\ is_digit b = true).
  { destruct (rev (a :: ds)) as [|b front] eqn:Hrev.
    - apply (f_equal (@rev _)) in Hrev. rewrite rev_involutive in Hrev. discriminate.
    - exists b, front. split; [reflexivity|].
      apply Forall_rev in Hd. rewrite Hrev in Hd. now inversion Hd. }
  destruct Hlast as (b & front & Hrev & Hb).
  rewrite Hrev, lstrip_chars_stop by now apply digit_not_in_months.
  rewrite <- Hrev, rev_involutive, <- Hlist.
  apply string_of_list_ascii_of_string.
Qed.

Lemma term_to_int_strips_affixes_witness :
  _term_to_int (fun s => if String.eqb s "36" then Ok 36 else Raise (ValueError s))
               (" " ++ "36" ++ " months")%string
  = Ok 36.
Proof.
  apply (term_to_int_strips_affixes
           (fun s => if String.eqb s "36" then Ok 36 else Raise (ValueError s))
           " " "36" " months").
  - repeat constructor.
  - repeat constructor.
  - discriminate.
  - repeat constructor.
Defined.
